(** * TreasuryDAO: the governance / treasury state machines

    A shallow embedding of the two Solidity contracts of the repository,

    - [contracts/SimpleTreasuryDAO.sol]  (module [Simple]), and
    - [contracts/TreasuryDAO.sol]        (module [Confidential]),

    followed by the properties of the specification that were checked
    against them.

    Conventions of the embedding.

    - [uint256], [address] and the plaintext behind an [euint64] handle are
      numbers of type [N]; Solidity 0.8 checked arithmetic is written out
      ([checked_add] and friends revert with [Panic ArithmeticOverflow]), and
      the wrap-around of the 64-bit encrypted integers is written out in
      module [FHE].
    - A [mapping] is a [gmap] read with the zero value as default
      ([mapping_get]); a storage array is a [list], indexed after the bounds
      check the compiler inserts ([Panic IndexOutOfBounds]).
    - Every external function is a Rocq function from the call environment
      ([Env]: sender, attached value, block timestamp) and the contract
      state to a [Result]: either the new state (and the returned value) or
      the revert reason.  A reverted call leaves the state as it was.
    - The event log is a field of the state.  The grants on the access
      control list of the ciphertext engine ([FHE.allow], [FHE.allowThis])
      touch no storage field and no revert condition of the contracts; they
      are left out. *)

From stdpp Require Import gmap list strings.
From Stdlib Require Import NArith ZArith Lia.

Local Open Scope N_scope.

(** ** Solidity runtime *)

Definition address := N.
Definition uint256 := N.

Definition uint256_max : N := 2 ^ 256 - 1.
Definition one_day : N := 86400.
Definition one_hour : N := 3600.

(** Compiler-inserted checks revert with [Panic(code)]:
    0x11 for arithmetic overflow, 0x32 for an array index out of bounds. *)
Inductive PanicCode : Type :=
| ArithmeticOverflow
| IndexOutOfBounds.

(** Why a call reverted.  [Custom e] is [revert E()] for a declared error
    [E] of the contract; the other constructors are the generic failures
    of the runtime and of the libraries: a compiler-inserted panic, a
    [require] with a reason string, a rejected input proof, a failed
    [transfer], and value sent to a function that is not [payable]. *)
Inductive Revert (E : Type) : Type :=
| Custom (e : E)
| Panic (code : PanicCode)
| RequireFailed (reason : string)
| InputProofRejected
| TransferFailed
| CallValueRejected.

Arguments Custom {E} e.
Arguments Panic {E} code.
Arguments RequireFailed {E} reason.
Arguments InputProofRejected {E}.
Arguments TransferFailed {E}.
Arguments CallValueRejected {E}.

Inductive Result (E A : Type) : Type :=
| Ok (a : A)
| Err (r : Revert E).

Arguments Ok {E A} a.
Arguments Err {E A} r.

Definition bind {E A B : Type} (m : Result E A) (k : A -> Result E B) : Result E B :=
  match m with
  | Ok a => k a
  | Err r => Err r
  end.

Notation "'let!' x ':=' m 'in' k" := (bind m (fun x => k))
  (at level 10, x name, m at level 100, k at level 200).

Definition is_ok {E A : Type} (m : Result E A) : bool :=
  match m with Ok _ => true | Err _ => false end.

(** The revert reason is one of the contract's named errors. *)
Definition is_named {E : Type} (r : Revert E) : bool :=
  match r with Custom _ => true | _ => false end.

Definition checked_add {E : Type} (a b : uint256) : Result E uint256 :=
  if a + b <=? uint256_max then Ok (a + b) else Err (Panic ArithmeticOverflow).

Definition checked_sub {E : Type} (a b : uint256) : Result E uint256 :=
  if b <=? a then Ok (a - b) else Err (Panic ArithmeticOverflow).

Definition checked_mul {E : Type} (a b : uint256) : Result E uint256 :=
  if a * b <=? uint256_max then Ok (a * b) else Err (Panic ArithmeticOverflow).

(** Reading a mapping: an absent key reads as the zero value [d]. *)
Definition mapping_get {K V : Type} `{Countable K} (d : V) (m : gmap K V) (k : K) : V :=
  default d (m !! k).

(** [arr[i]] on a storage array. *)
Definition array_get {E A : Type} (arr : list A) (i : uint256) : Result E A :=
  match arr !! N.to_nat i with
  | Some x => Ok x
  | None => Err (Panic IndexOutOfBounds)
  end.

(** The environment of one call. [transfer_succeeds] is the outcome of an
    outgoing [transfer] to the sender during this call (the recipient may
    reject the funds); only [Simple.withdraw] consults it. *)
Record Env : Type := mkEnv {
  msg_sender : address;
  msg_value : uint256;
  block_timestamp : uint256;
  transfer_succeeds : bool
}.

(** ** The ciphertext engine *)

(** Modelled from the spec: the FHE library ([@fhevm/solidity/lib/FHE.sol]) is
    an external collaborator whose source is not part of the repository.
    Following the specification's glossary, a homomorphic operation yields a
    handle whose decryption is the same operation on the plaintexts; a handle
    is represented by its plaintext, a 64-bit unsigned integer with
    wrap-around arithmetic, and an uninitialised handle reads as zero.  The
    verified import fails when the accompanying proof is rejected; the proof
    bytes are abstracted to the verdict of the verifier. *)
Module FHE.

Definition euint64 := N.
Definition externalEuint64 := N.
Definition ebool := bool.

Definition two64 : N := 2 ^ 64.

Definition asEuint64 (n : N) : euint64 := n mod two64.

Definition fromExternal {E : Type} (ext : externalEuint64) (inputProof : bool)
  : Result E euint64 :=
  if inputProof then Ok (ext mod two64) else Err InputProofRejected.

Definition add (a b : euint64) : euint64 := (a + b) mod two64.

Definition sub (a b : euint64) : euint64 :=
  Z.to_N ((Z.of_N a - Z.of_N b) mod Z.of_N two64).

Definition eq (a b : euint64) : ebool := a =? b.

Definition le (a b : euint64) : ebool := a <=? b.

Definition select (c : ebool) (a b : euint64) : euint64 := if c then a else b.

End FHE.

(** ** SimpleTreasuryDAO *)

Module Simple.

Inductive Error : Type :=
| InsufficientDeposit
| AlreadyVoted
| ProposalNotFound
| VotingEnded
| NotProposer
| InvalidAmount
| InvalidRecipient
| InvalidDeadline
| NotFinalized
| AlreadyFinalized.

Inductive Event : Type :=
| Deposited (user : address) (amount : uint256)
| Withdrawn (user : address) (amount : uint256)
| ProposalCreated (id : uint256) (title : string) (amount : uint256) (recipient : address)
| VoteCast (proposalId : uint256) (voter : address)
| ProposalFinalized (id : uint256).

Record Proposal : Type := mkProposal {
  id : uint256;
  title : string;
  description : string;
  proposer : address;
  amount : uint256;
  recipient : address;
  deadline : uint256;
  encryptedYesVotes : FHE.euint64;
  encryptedNoVotes : FHE.euint64;
  finalized : bool
}.

Record State : Type := mkState {
  owner : address;
  minDepositToVote : uint256;
  proposals : list Proposal;
  deposits : gmap address uint256;
  hasVoted : gmap (uint256 * address) bool;
  events : list Event
}.

Definition deposits_of (s : State) (a : address) : uint256 :=
  mapping_get 0 (deposits s) a.

Definition hasVoted_of (s : State) (proposalId : uint256) (a : address) : bool :=
  mapping_get false (hasVoted s) (proposalId, a).

Definition proposals_length (s : State) : uint256 := N.of_nat (length (proposals s)).

Definition constructor (env : Env) (_minDepositToVote : uint256) : State :=
  {| owner := msg_sender env;
     minDepositToVote := _minDepositToVote;
     proposals := [];
     deposits := ∅;
     hasVoted := ∅;
     events := [] |}.

Definition set_deposits (s : State) (d : gmap address uint256) (ev : Event) : State :=
  {| owner := owner s;
     minDepositToVote := minDepositToVote s;
     proposals := proposals s;
     deposits := d;
     hasVoted := hasVoted s;
     events := events s ++ [ev] |}.

Definition set_proposals (s : State) (ps : list Proposal) (ev : Event) : State :=
  {| owner := owner s;
     minDepositToVote := minDepositToVote s;
     proposals := ps;
     deposits := deposits s;
     hasVoted := hasVoted s;
     events := events s ++ [ev] |}.

Definition set_hasVoted (s : State) (hv : gmap (uint256 * address) bool) : State :=
  {| owner := owner s;
     minDepositToVote := minDepositToVote s;
     proposals := proposals s;
     deposits := deposits s;
     hasVoted := hv;
     events := events s |}.

Definition set_minDepositToVote (s : State) (m : uint256) : State :=
  {| owner := owner s;
     minDepositToVote := m;
     proposals := proposals s;
     deposits := deposits s;
     hasVoted := hasVoted s;
     events := events s |}.

Definition set_tallies (p : Proposal) (yes no : FHE.euint64) : Proposal :=
  {| id := id p;
     title := title p;
     description := description p;
     proposer := proposer p;
     amount := amount p;
     recipient := recipient p;
     deadline := deadline p;
     encryptedYesVotes := yes;
     encryptedNoVotes := no;
     finalized := finalized p |}.

Definition set_finalized (p : Proposal) (b : bool) : Proposal :=
  {| id := id p;
     title := title p;
     description := description p;
     proposer := proposer p;
     amount := amount p;
     recipient := recipient p;
     deadline := deadline p;
     encryptedYesVotes := encryptedYesVotes p;
     encryptedNoVotes := encryptedNoVotes p;
     finalized := b |}.

(** [deposit() external payable] *)
Definition deposit (env : Env) (s : State) : Result Error State :=
  if msg_value env =? 0 then Err (Custom InvalidAmount) else
  let! d := checked_add (deposits_of s (msg_sender env)) (msg_value env) in
  Ok (set_deposits s (<[msg_sender env := d]> (deposits s))
        (Deposited (msg_sender env) (msg_value env))).

(** [withdraw(uint256 amount)] *)
Definition withdraw (env : Env) (amount : uint256) (s : State) : Result Error State :=
  if deposits_of s (msg_sender env) <? amount then Err (Custom InvalidAmount) else
  let! d := checked_sub (deposits_of s (msg_sender env)) amount in
  if transfer_succeeds env then
    Ok (set_deposits s (<[msg_sender env := d]> (deposits s))
          (Withdrawn (msg_sender env) amount))
  else Err TransferFailed.

(** [createProposal(title, description, amount, recipient, votingPeriodDays)] *)
Definition createProposal (env : Env) (title description : string)
    (amount : uint256) (recipient : address) (votingPeriodDays : uint256)
    (s : State) : Result Error (State * uint256) :=
  if deposits_of s (msg_sender env) <? minDepositToVote s
  then Err (Custom InsufficientDeposit) else
  if amount =? 0 then Err (Custom InvalidAmount) else
  if recipient =? 0 then Err (Custom InvalidRecipient) else
  if (votingPeriodDays =? 0) || (30 <? votingPeriodDays)
  then Err (Custom InvalidDeadline) else
  let proposalId := proposals_length s in
  let! period := checked_mul votingPeriodDays one_day in
  let! dl := checked_add (block_timestamp env) period in
  let newProposal :=
    {| id := proposalId;
       title := title;
       description := description;
       proposer := msg_sender env;
       amount := amount;
       recipient := recipient;
       deadline := dl;
       encryptedYesVotes := FHE.asEuint64 0;
       encryptedNoVotes := FHE.asEuint64 0;
       finalized := false |} in
  Ok (set_proposals s (proposals s ++ [newProposal])
        (ProposalCreated proposalId title amount recipient),
      proposalId).

(** [vote(proposalId, encryptedVote, inputProof)] *)
Definition vote (env : Env) (proposalId : uint256)
    (encryptedVote : FHE.externalEuint64) (inputProof : bool)
    (s : State) : Result Error State :=
  if proposals_length s <=? proposalId then Err (Custom ProposalNotFound) else
  if deposits_of s (msg_sender env) <? minDepositToVote s
  then Err (Custom InsufficientDeposit) else
  if hasVoted_of s proposalId (msg_sender env) then Err (Custom AlreadyVoted) else
  let! proposal := array_get (proposals s) proposalId in
  if deadline proposal <? block_timestamp env then Err (Custom VotingEnded) else
  let! voteValue := FHE.fromExternal encryptedVote inputProof in
  let yesIncrement :=
    FHE.select (FHE.eq voteValue (FHE.asEuint64 1)) (FHE.asEuint64 1) (FHE.asEuint64 0) in
  let yes := FHE.add (encryptedYesVotes proposal) yesIncrement in
  let noIncrement :=
    FHE.select (FHE.eq voteValue (FHE.asEuint64 0)) (FHE.asEuint64 1) (FHE.asEuint64 0) in
  let no := FHE.add (encryptedNoVotes proposal) noIncrement in
  let s1 := set_proposals s
              (<[N.to_nat proposalId := set_tallies proposal yes no]> (proposals s))
              (VoteCast proposalId (msg_sender env)) in
  Ok (set_hasVoted s1 (<[(proposalId, msg_sender env) := true]> (hasVoted s1))).

(** [finalizeProposal(proposalId)] *)
Definition finalizeProposal (env : Env) (proposalId : uint256) (s : State)
  : Result Error State :=
  if proposals_length s <=? proposalId then Err (Custom ProposalNotFound) else
  let! proposal := array_get (proposals s) proposalId in
  if finalized proposal then Err (Custom AlreadyFinalized) else
  if negb (msg_sender env =? owner s) && negb (msg_sender env =? proposer proposal)
  then Err (Custom NotProposer) else
  if block_timestamp env <=? deadline proposal then Err (Custom VotingEnded) else
  Ok (set_proposals s
        (<[N.to_nat proposalId := set_finalized proposal true]> (proposals s))
        (ProposalFinalized proposalId)).

(** [getYesVotes(proposalId) view] *)
Definition getYesVotes (proposalId : uint256) (s : State) : Result Error FHE.euint64 :=
  if proposals_length s <=? proposalId then Err (Custom ProposalNotFound) else
  let! proposal := array_get (proposals s) proposalId in
  if negb (finalized proposal) then Err (Custom NotFinalized) else
  Ok (encryptedYesVotes proposal).

(** [getNoVotes(proposalId) view] *)
Definition getNoVotes (proposalId : uint256) (s : State) : Result Error FHE.euint64 :=
  if proposals_length s <=? proposalId then Err (Custom ProposalNotFound) else
  let! proposal := array_get (proposals s) proposalId in
  if negb (finalized proposal) then Err (Custom NotFinalized) else
  Ok (encryptedNoVotes proposal).

(** [getProposalCount() view] *)
Definition getProposalCount (s : State) : Result Error uint256 :=
  Ok (proposals_length s).

(** [getProposal(proposalId) view]: every field but the two tallies. *)
Definition getProposal (proposalId : uint256) (s : State)
  : Result Error (uint256 * string * string * address * uint256 * address * uint256 * bool) :=
  if proposals_length s <=? proposalId then Err (Custom ProposalNotFound) else
  let! p := array_get (proposals s) proposalId in
  Ok (id p, title p, description p, proposer p, amount p, recipient p, deadline p,
      finalized p).

(** [updateMinDeposit(newMinDeposit)] *)
Definition updateMinDeposit (env : Env) (newMinDeposit : uint256) (s : State)
  : Result Error State :=
  if negb (msg_sender env =? owner s) then Err (RequireFailed "Not owner") else
  Ok (set_minDepositToVote s newMinDeposit).

(** The external calls of the contract, and the ledger that applies them
    one at a time. *)
Inductive Call : Type :=
| CallDeposit
| CallWithdraw (amount : uint256)
| CallCreateProposal (title description : string) (amount : uint256)
    (recipient : address) (votingPeriodDays : uint256)
| CallVote (proposalId : uint256) (encryptedVote : FHE.externalEuint64) (inputProof : bool)
| CallFinalizeProposal (proposalId : uint256)
| CallGetYesVotes (proposalId : uint256)
| CallGetNoVotes (proposalId : uint256)
| CallGetProposalCount
| CallGetProposal (proposalId : uint256)
| CallUpdateMinDeposit (newMinDeposit : uint256).

Definition keep {A : Type} (s : State) (r : Result Error A) : Result Error State :=
  let! _ := r in Ok s.

Definition dispatch (env : Env) (c : Call) (s : State) : Result Error State :=
  match c with
  | CallDeposit => deposit env s
  | CallWithdraw a => withdraw env a s
  | CallCreateProposal t d a r v =>
      let! created := createProposal env t d a r v s in Ok (fst created)
  | CallVote i ev pf => vote env i ev pf s
  | CallFinalizeProposal i => finalizeProposal env i s
  | CallGetYesVotes i => keep s (getYesVotes i s)
  | CallGetNoVotes i => keep s (getNoVotes i s)
  | CallGetProposalCount => keep s (getProposalCount s)
  | CallGetProposal i => keep s (getProposal i s)
  | CallUpdateMinDeposit m => updateMinDeposit env m s
  end.

(** Only [deposit] is [payable]: any other function rejects a call that
    carries value before its body runs. *)
Definition payable (c : Call) : bool :=
  match c with CallDeposit => true | _ => false end.

Definition call (env : Env) (c : Call) (s : State) : Result Error State :=
  if negb (payable c) && negb (msg_value env =? 0) then Err CallValueRejected
  else dispatch env c s.

(** A reverted call discards every attempted mutation. *)
Definition step (s : State) (ec : Env * Call) : State :=
  match call (fst ec) (snd ec) s with
  | Ok s' => s'
  | Err _ => s
  end.

Definition run (tr : list (Env * Call)) (s : State) : State :=
  fold_left step tr s.

(** Tallies are 64-bit values. *)
Definition wf_proposal (p : Proposal) : Prop :=
  encryptedYesVotes p < FHE.two64 /\ encryptedNoVotes p < FHE.two64.

Definition wf (s : State) : Prop := Forall wf_proposal (proposals s).

(** The sums of the values of the successful deposits, and of the amounts
    of the successful withdrawals, of identity [a] along a trace started in
    state [s]. *)
Fixpoint deposited (a : address) (tr : list (Env * Call)) (s : State) : N :=
  match tr with
  | [] => 0
  | (env, c) :: tr' =>
      (match c with
       | CallDeposit =>
           if is_ok (call env c s) && (msg_sender env =? a) then msg_value env else 0
       | _ => 0
       end) + deposited a tr' (step s (env, c))
  end.

(** The number of successful [vote] calls of identity [a] on proposal [i]
    along a trace started in state [s]. *)
Fixpoint votes_cast (i : uint256) (a : address) (tr : list (Env * Call)) (s : State)
  : nat :=
  match tr with
  | [] => 0%nat
  | (env, c) :: tr' =>
      ((match c with
        | CallVote j _ _ =>
            if is_ok (call env c s) && N.eqb j i && N.eqb (msg_sender env) a
            then 1 else 0
        | _ => 0
        end) + votes_cast i a tr' (step s (env, c)))%nat
  end.

Fixpoint withdrawn (a : address) (tr : list (Env * Call)) (s : State) : N :=
  match tr with
  | [] => 0
  | (env, c) :: tr' =>
      (match c with
       | CallWithdraw amount =>
           if is_ok (call env c s) && (msg_sender env =? a) then amount else 0
       | _ => 0
       end) + withdrawn a tr' (step s (env, c))
  end.

End Simple.

(** ** TreasuryDAO (confidential spending) *)

Module Confidential.

Inductive Error : Type :=
| NotOwner
| NotMember
| PastDeadline
| AlreadyVoted
| AlreadyExecuted
| QuorumNotReached
| VotingOngoing
| InvalidVotingPeriod
| InvalidRecipient.

Inductive Event : Type :=
| MemberAdded (member : address)
| MemberRemoved (member : address)
| Deposit
| ProposalCreated (id : uint256) (recipient : address)
| Voted (id : uint256) (voter : address)
| Executed (id : uint256) (recipient : address)
| QuorumUpdated (oldQuorum newQuorum : uint256)
| ProposalCancelled (id : uint256).

Record Proposal : Type := mkProposal {
  recipient : address;
  encAmount : FHE.euint64;
  yesVotes : uint256;
  deadline : uint256;
  executed : bool;
  executedEnc : FHE.euint64
}.

Record State : Type := mkState {
  owner : address;
  quorum : uint256;
  _treasury : FHE.euint64;
  proposals : list Proposal;
  voted : gmap (uint256 * address) bool;
  isMember : gmap address bool;
  events : list Event
}.

Definition MIN_VOTING_PERIOD : uint256 := 1 * one_hour.
Definition MAX_VOTING_PERIOD : uint256 := 30 * one_day.

Definition isMember_of (s : State) (a : address) : bool :=
  mapping_get false (isMember s) a.

Definition voted_of (s : State) (id : uint256) (a : address) : bool :=
  mapping_get false (voted s) (id, a).

Definition proposals_length (s : State) : uint256 := N.of_nat (length (proposals s)).

Definition set_isMember (s : State) (m : gmap address bool) (ev : Event) : State :=
  {| owner := owner s;
     quorum := quorum s;
     _treasury := _treasury s;
     proposals := proposals s;
     voted := voted s;
     isMember := m;
     events := events s ++ [ev] |}.

Definition set_treasury (s : State) (t : FHE.euint64) : State :=
  {| owner := owner s;
     quorum := quorum s;
     _treasury := t;
     proposals := proposals s;
     voted := voted s;
     isMember := isMember s;
     events := events s |}.

Definition set_quorum (s : State) (q : uint256) : State :=
  {| owner := owner s;
     quorum := q;
     _treasury := _treasury s;
     proposals := proposals s;
     voted := voted s;
     isMember := isMember s;
     events := events s |}.

Definition set_proposals (s : State) (ps : list Proposal) : State :=
  {| owner := owner s;
     quorum := quorum s;
     _treasury := _treasury s;
     proposals := ps;
     voted := voted s;
     isMember := isMember s;
     events := events s |}.

Definition set_voted (s : State) (v : gmap (uint256 * address) bool) : State :=
  {| owner := owner s;
     quorum := quorum s;
     _treasury := _treasury s;
     proposals := proposals s;
     voted := v;
     isMember := isMember s;
     events := events s |}.

Definition emit (s : State) (ev : Event) : State :=
  {| owner := owner s;
     quorum := quorum s;
     _treasury := _treasury s;
     proposals := proposals s;
     voted := voted s;
     isMember := isMember s;
     events := events s ++ [ev] |}.

Definition set_yesVotes (p : Proposal) (n : uint256) : Proposal :=
  {| recipient := recipient p;
     encAmount := encAmount p;
     yesVotes := n;
     deadline := deadline p;
     executed := executed p;
     executedEnc := executedEnc p |}.

Definition set_executed (p : Proposal) (enc : FHE.euint64) : Proposal :=
  {| recipient := recipient p;
     encAmount := encAmount p;
     yesVotes := yesVotes p;
     deadline := deadline p;
     executed := true;
     executedEnc := enc |}.

Definition onlyOwner {A : Type} (env : Env) (s : State) (body : Result Error A)
  : Result Error A :=
  if negb (msg_sender env =? owner s) then Err (Custom NotOwner) else body.

Definition onlyMember {A : Type} (env : Env) (s : State) (body : Result Error A)
  : Result Error A :=
  if negb (isMember_of s (msg_sender env)) then Err (Custom NotMember) else body.

(** [constructor(initialMembers, minQuorum)]: the treasury handle starts
    uninitialised, which reads as zero. *)
Definition constructor (env : Env) (initialMembers : list address) (minQuorum : uint256)
  : State :=
  fold_left
    (fun s m => set_isMember s (<[m := true]> (isMember s)) (MemberAdded m))
    initialMembers
    {| owner := msg_sender env;
       quorum := minQuorum;
       _treasury := 0;
       proposals := [];
       voted := ∅;
       isMember := ∅;
       events := [] |}.

(** [addMember(m) onlyOwner] *)
Definition addMember (env : Env) (m : address) (s : State) : Result Error State :=
  onlyOwner env s (Ok (set_isMember s (<[m := true]> (isMember s)) (MemberAdded m))).

(** [removeMember(m) onlyOwner] *)
Definition removeMember (env : Env) (m : address) (s : State) : Result Error State :=
  onlyOwner env s (Ok (set_isMember s (<[m := false]> (isMember s)) (MemberRemoved m))).

(** [depositEncrypted(encryptedAmt, inputProof) onlyOwner] *)
Definition depositEncrypted (env : Env) (encryptedAmt : FHE.externalEuint64)
    (inputProof : bool) (s : State) : Result Error State :=
  onlyOwner env s
    (let! amt := FHE.fromExternal encryptedAmt inputProof in
     Ok (emit (set_treasury s (FHE.add (_treasury s) amt)) Deposit)).

(** [getTreasury() view] *)
Definition getTreasury (s : State) : Result Error FHE.euint64 :=
  Ok (_treasury s).

(** [createProposal(recipient, encryptedAmt, inputProof, votingPeriodSec) onlyMember] *)
Definition createProposal (env : Env) (recipient : address)
    (encryptedAmt : FHE.externalEuint64) (inputProof : bool)
    (votingPeriodSec : uint256) (s : State) : Result Error (State * uint256) :=
  onlyMember env s
    (if recipient =? 0 then Err (Custom InvalidRecipient) else
     if (votingPeriodSec <? MIN_VOTING_PERIOD) || (MAX_VOTING_PERIOD <? votingPeriodSec)
     then Err (Custom InvalidVotingPeriod) else
     let! enc := FHE.fromExternal encryptedAmt inputProof in
     let! dl := checked_add (block_timestamp env) votingPeriodSec in
     let p :=
       {| recipient := recipient;
          encAmount := enc;
          yesVotes := 0;
          deadline := dl;
          executed := false;
          executedEnc := 0 |} in
     let s1 := set_proposals s (proposals s ++ [p]) in
     let! id := checked_sub (proposals_length s1) 1 in
     Ok (emit s1 (ProposalCreated id recipient), id)).

(** [updateQuorum(newQuorum) onlyOwner] *)
Definition updateQuorum (env : Env) (newQuorum : uint256) (s : State)
  : Result Error State :=
  onlyOwner env s
    (Ok (set_quorum (emit s (QuorumUpdated (quorum s) newQuorum)) newQuorum)).

(** [voteYes(id) onlyMember] *)
Definition voteYes (env : Env) (id : uint256) (s : State) : Result Error State :=
  onlyMember env s
    (let! p := array_get (proposals s) id in
     if deadline p <? block_timestamp env then Err (Custom PastDeadline) else
     if voted_of s id (msg_sender env) then Err (Custom AlreadyVoted) else
     let s1 := set_voted s (<[(id, msg_sender env) := true]> (voted s)) in
     let! n := checked_add (yesVotes p) 1 in
     let s2 := set_proposals s1 (<[N.to_nat id := set_yesVotes p n]> (proposals s1)) in
     Ok (emit s2 (Voted id (msg_sender env)))).

(** [execute(id) onlyMember] *)
Definition execute (env : Env) (id : uint256) (s : State) : Result Error State :=
  onlyMember env s
    (let! p := array_get (proposals s) id in
     if executed p then Err (Custom AlreadyExecuted) else
     let quorumReached := quorum s <=? yesVotes p in
     if negb quorumReached then
       if block_timestamp env <? deadline p then Err (Custom VotingOngoing)
       else Err (Custom QuorumNotReached)
     else
     let toSpend :=
       FHE.select (FHE.le (encAmount p) (_treasury s)) (encAmount p) (FHE.asEuint64 0) in
     let s1 := set_treasury s (FHE.sub (_treasury s) toSpend) in
     let s2 := set_proposals s1 (<[N.to_nat id := set_executed p toSpend]> (proposals s1)) in
     Ok (emit s2 (Executed id (recipient p)))).

(** [getExecutedAmount(id) view] *)
Definition getExecutedAmount (id : uint256) (s : State) : Result Error FHE.euint64 :=
  let! p := array_get (proposals s) id in Ok (executedEnc p).

(** [getRequestedAmount(id) view] *)
Definition getRequestedAmount (id : uint256) (s : State) : Result Error FHE.euint64 :=
  let! p := array_get (proposals s) id in Ok (encAmount p).

(** [cancelProposal(id) onlyOwner] *)
Definition cancelProposal (env : Env) (id : uint256) (s : State) : Result Error State :=
  onlyOwner env s
    (let! p := array_get (proposals s) id in
     if executed p then Err (Custom AlreadyExecuted) else
     let s1 := set_proposals s
                 (<[N.to_nat id := set_executed p (FHE.asEuint64 0)]> (proposals s)) in
     Ok (emit s1 (ProposalCancelled id))).

Inductive Call : Type :=
| CallAddMember (m : address)
| CallRemoveMember (m : address)
| CallDepositEncrypted (encryptedAmt : FHE.externalEuint64) (inputProof : bool)
| CallGetTreasury
| CallCreateProposal (recipient : address) (encryptedAmt : FHE.externalEuint64)
    (inputProof : bool) (votingPeriodSec : uint256)
| CallUpdateQuorum (newQuorum : uint256)
| CallVoteYes (id : uint256)
| CallExecute (id : uint256)
| CallGetExecutedAmount (id : uint256)
| CallGetRequestedAmount (id : uint256)
| CallCancelProposal (id : uint256).

Definition keep {A : Type} (s : State) (r : Result Error A) : Result Error State :=
  let! _ := r in Ok s.

Definition dispatch (env : Env) (c : Call) (s : State) : Result Error State :=
  match c with
  | CallAddMember m => addMember env m s
  | CallRemoveMember m => removeMember env m s
  | CallDepositEncrypted a pf => depositEncrypted env a pf s
  | CallGetTreasury => keep s (getTreasury s)
  | CallCreateProposal r a pf v =>
      let! created := createProposal env r a pf v s in Ok (fst created)
  | CallUpdateQuorum q => updateQuorum env q s
  | CallVoteYes i => voteYes env i s
  | CallExecute i => execute env i s
  | CallGetExecutedAmount i => keep s (getExecutedAmount i s)
  | CallGetRequestedAmount i => keep s (getRequestedAmount i s)
  | CallCancelProposal i => cancelProposal env i s
  end.

(** No function of the contract is [payable]: a call that carries value is
    rejected before the body runs. *)
Definition call (env : Env) (c : Call) (s : State) : Result Error State :=
  if negb (msg_value env =? 0) then Err CallValueRejected else dispatch env c s.

(** A reverted call discards every attempted mutation. *)
Definition step (s : State) (ec : Env * Call) : State :=
  match call (fst ec) (snd ec) s with
  | Ok s' => s'
  | Err _ => s
  end.

Definition run (tr : list (Env * Call)) (s : State) : State :=
  fold_left step tr s.

(** The number of successful [voteYes] calls of identity [a] on proposal
    [i] along a trace started in state [s]. *)
Fixpoint votes_cast (i : uint256) (a : address) (tr : list (Env * Call)) (s : State)
  : nat :=
  match tr with
  | [] => 0%nat
  | (env, c) :: tr' =>
      ((match c with
        | CallVoteYes j =>
            if is_ok (call env c s) && N.eqb j i && N.eqb (msg_sender env) a
            then 1 else 0
        | _ => 0
        end) + votes_cast i a tr' (step s (env, c)))%nat
  end.

(** The proposal id a call names, if any. *)
Definition call_id (c : Call) : option uint256 :=
  match c with
  | CallVoteYes i | CallExecute i | CallGetExecutedAmount i
  | CallGetRequestedAmount i | CallCancelProposal i => Some i
  | _ => None
  end.

(** The treasury is a 64-bit value. *)
Definition wf (s : State) : Prop := _treasury s < FHE.two64.

End Confidential.

(** ** Concrete scenarios *)

Module Scenario.

Definition deployer : address := 9.
Definition alice : address := 1.
Definition bob : address := 2.
Definition carol : address := 3.
Definition payee : address := 7.

(** A call by [who] at time [t], with no value attached. *)
Definition at_time (who : address) (t : uint256) : Env :=
  {| msg_sender := who; msg_value := 0; block_timestamp := t; transfer_succeeds := true |}.

(** A call by [who] at time [t] carrying [v] wei. *)
Definition paying (who : address) (t : uint256) (v : uint256) : Env :=
  {| msg_sender := who; msg_value := v; block_timestamp := t; transfer_succeeds := true |}.

(** Confidential variant: quorum 2, members alice and bob, 50 in the
    treasury, one proposal asking for [amount] with a one-day voting
    period, created at time 120 (deadline 86520). *)
Definition conf_created (amount : N) : Confidential.State :=
  Confidential.run
    [ (at_time deployer 110, Confidential.CallDepositEncrypted 50 true);
      (at_time alice 120, Confidential.CallCreateProposal payee amount true one_day) ]
    (Confidential.constructor (at_time deployer 100) [alice; bob] 2).

(** ... after alice and bob have both voted yes. *)
Definition conf_voted (amount : N) : Confidential.State :=
  Confidential.run
    [ (at_time alice 130, Confidential.CallVoteYes 0);
      (at_time bob 140, Confidential.CallVoteYes 0) ]
    (conf_created amount).

(** ... after only alice has voted yes. *)
Definition conf_one_vote : Confidential.State :=
  Confidential.run [ (at_time alice 130, Confidential.CallVoteYes 0) ] (conf_created 20).

(** Simple variant: minimum deposit 10; alice deposits 100 and creates a
    seven-day proposal at time 120 (deadline 604920); bob deposits 10. *)
Definition simple_created : Simple.State :=
  Simple.run
    [ (paying alice 110 100, Simple.CallDeposit);
      (at_time alice 120, Simple.CallCreateProposal "grant" "fund the grant" 1000 payee 7);
      (paying bob 125 10, Simple.CallDeposit) ]
    (Simple.constructor (at_time deployer 100) 10).

(** Confidential variant with quorum 1: alice creates the proposal, votes
    and executes it at once, at time 150, long before the deadline 86520. *)
Definition conf_executed_early : Confidential.State :=
  Confidential.run
    [ (at_time deployer 110, Confidential.CallDepositEncrypted 50 true);
      (at_time alice 120, Confidential.CallCreateProposal payee 20 true one_day);
      (at_time alice 130, Confidential.CallVoteYes 0);
      (at_time alice 150, Confidential.CallExecute 0) ]
    (Confidential.constructor (at_time deployer 100) [alice; bob] 1).

(** Simple variant: alice has voted on proposal 0 and then withdrawn her
    whole deposit. *)
Definition simple_voted_withdrawn : Simple.State :=
  Simple.run
    [ (at_time alice 200, Simple.CallVote 0 1 true);
      (at_time alice 210, Simple.CallWithdraw 100) ]
    simple_created.

End Scenario.

(** ** Vocabulary of the statements *)

(** The caller may finalize proposal [p]: it is the owner or the proposer. *)
Definition may_finalize (env : Env) (s : Simple.State) (p : Simple.Proposal) : bool :=
  (msg_sender env =? Simple.owner s) || (msg_sender env =? Simple.proposer p).

(** What a call may change of an existing proposal of the Simple variant:
    not its deadline, not its proposer, and never a [finalized] flag that is
    set. *)
Definition simple_kept (p p' : Simple.Proposal) : Prop :=
  Simple.deadline p' = Simple.deadline p /\
  Simple.proposer p' = Simple.proposer p /\
  (Simple.finalized p = true -> Simple.finalized p' = true).

(** What every successful call of the Simple variant keeps: the owner, the
    proposals that exist, and every vote record that is set. *)
Definition simple_extends (s s' : Simple.State) : Prop :=
  Simple.owner s' = Simple.owner s /\
  (forall (n : nat) (p : Simple.Proposal),
     Simple.proposals s !! n = Some p ->
     exists p' : Simple.Proposal, Simple.proposals s' !! n = Some p' /\ simple_kept p p') /\
  (forall (i : uint256) (a : address),
     Simple.hasVoted_of s i a = true -> Simple.hasVoted_of s' i a = true).

(** What a call may change of an existing proposal of the Confidential-spend
    variant: not its deadline, and never an [executed] flag that is set. *)
Definition conf_kept (p p' : Confidential.Proposal) : Prop :=
  Confidential.deadline p' = Confidential.deadline p /\
  (Confidential.executed p = true -> Confidential.executed p' = true).

(** What every successful call of the Confidential-spend variant keeps: the
    owner, the proposals that exist, and every vote record that is set. *)
Definition conf_extends (s s' : Confidential.State) : Prop :=
  Confidential.owner s' = Confidential.owner s /\
  (forall (n : nat) (p : Confidential.Proposal),
     Confidential.proposals s !! n = Some p ->
     exists p' : Confidential.Proposal,
       Confidential.proposals s' !! n = Some p' /\ conf_kept p p') /\
  (forall (i : uint256) (a : address),
     Confidential.voted_of s i a = true -> Confidential.voted_of s' i a = true).

(** The input proof a call carries, if any. *)
Definition conf_call_proof (c : Confidential.Call) : option bool :=
  match c with
  | Confidential.CallDepositEncrypted _ pf => Some pf
  | Confidential.CallCreateProposal _ _ pf _ => Some pf
  | _ => None
  end.

(** The checked additions of the Confidential-spend variant that overflow:
    the deadline of a new proposal, and the yes counter. *)
Definition conf_overflows (env : Env) (c : Confidential.Call) (s : Confidential.State)
  : Prop :=
  match c with
  | Confidential.CallCreateProposal _ _ _ votingPeriodSec =>
      uint256_max < block_timestamp env + votingPeriodSec
  | Confidential.CallVoteYes i =>
      exists p : Confidential.Proposal,
        Confidential.proposals s !! N.to_nat i = Some p /\
        uint256_max < Confidential.yesVotes p + 1
  | _ => False
  end.

(** ** Vocabulary of the further properties *)

(** [l'] still holds every element of [l], at the same index, up to [R]. *)
Definition kept_upto {A : Type} (R : A -> A -> Prop) (l l' : list A) : Prop :=
  forall (n : nat) (p : A), l !! n = Some p -> exists p' : A, l' !! n = Some p' /\ R p p'.

(** No call of the trace is sent by [a]. *)
Definition sent_by_others {C : Type} (a : address) (tr : list (Env * C)) : Prop :=
  Forall (fun ec => msg_sender (fst ec) <> a) tr.

(** Every call of the trace is made at time [t] or later. *)
Definition not_before {C : Type} (t : uint256) (tr : list (Env * C)) : Prop :=
  Forall (fun ec => t <= block_timestamp (fst ec)) tr.

(** The outcome of a call seen through a projection [f] of the state. *)
Definition project_result {E S : Type} (f : S -> S) (r : Result E S) : Result E S :=
  match r with
  | Ok s => Ok (f s)
  | Err e => Err e
  end.

(** The fields of a Simple proposal that are written at creation only. *)
Definition simple_terms (p : Simple.Proposal)
  : uint256 * string * string * address * uint256 * address * uint256 :=
  (Simple.id p, Simple.title p, Simple.description p, Simple.proposer p,
   Simple.amount p, Simple.recipient p, Simple.deadline p).

(** The number of successful [createProposal] calls of a trace. *)
Fixpoint simple_created_count (tr : list (Env * Simple.Call)) (s : Simple.State) : nat :=
  match tr with
  | [] => 0%nat
  | (env, c) :: tr' =>
      ((match c with
        | Simple.CallCreateProposal _ _ _ _ _ =>
            if is_ok (Simple.call env c s) then 1 else 0
        | _ => 0
        end) + simple_created_count tr' (Simple.step s (env, c)))%nat
  end.

(** The number of successful [vote] calls on proposal [i], of any identity. *)
Fixpoint simple_votes_on (i : uint256) (tr : list (Env * Simple.Call)) (s : Simple.State)
  : nat :=
  match tr with
  | [] => 0%nat
  | (env, c) :: tr' =>
      ((match c with
        | Simple.CallVote j _ _ =>
            if is_ok (Simple.call env c s) && N.eqb j i then 1 else 0
        | _ => 0
        end) + simple_votes_on i tr' (Simple.step s (env, c)))%nat
  end.

(** The two tallies of proposal [i] added up, on plaintexts; zero when the
    proposal does not exist. *)
Definition simple_tally (s : Simple.State) (i : uint256) : N :=
  match Simple.proposals s !! N.to_nat i with
  | Some p => Simple.encryptedYesVotes p + Simple.encryptedNoVotes p
  | None => 0
  end.

(** The public view of the Simple variant: everything but the plaintexts
    behind the two tallies, and behind the ballot of a [vote] call. *)
Definition simple_public_proposal (p : Simple.Proposal) : Simple.Proposal :=
  Simple.set_tallies p 0 0.

Definition simple_public (s : Simple.State) : Simple.State :=
  {| Simple.owner := Simple.owner s;
     Simple.minDepositToVote := Simple.minDepositToVote s;
     Simple.proposals := simple_public_proposal <$> Simple.proposals s;
     Simple.deposits := Simple.deposits s;
     Simple.hasVoted := Simple.hasVoted s;
     Simple.events := Simple.events s |}.

Definition simple_public_call (c : Simple.Call) : Simple.Call :=
  match c with
  | Simple.CallVote i _ pf => Simple.CallVote i 0 pf
  | _ => c
  end.

(** The fields of a Confidential-spend proposal that are written at
    creation only. *)
Definition conf_terms (p : Confidential.Proposal) : address * FHE.euint64 * uint256 :=
  (Confidential.recipient p, Confidential.encAmount p, Confidential.deadline p).

(** The number of successful [createProposal] calls of a trace. *)
Fixpoint conf_created_count (tr : list (Env * Confidential.Call)) (s : Confidential.State)
  : nat :=
  match tr with
  | [] => 0%nat
  | (env, c) :: tr' =>
      ((match c with
        | Confidential.CallCreateProposal _ _ _ _ =>
            if is_ok (Confidential.call env c s) then 1 else 0
        | _ => 0
        end) + conf_created_count tr' (Confidential.step s (env, c)))%nat
  end.

(** The number of successful [voteYes] calls on proposal [i]. *)
Fixpoint conf_yes_calls (i : uint256) (tr : list (Env * Confidential.Call))
    (s : Confidential.State) : nat :=
  match tr with
  | [] => 0%nat
  | (env, c) :: tr' =>
      ((match c with
        | Confidential.CallVoteYes j =>
            if is_ok (Confidential.call env c s) && N.eqb j i then 1 else 0
        | _ => 0
        end) + conf_yes_calls i tr' (Confidential.step s (env, c)))%nat
  end.

(** The yes counter of proposal [i]; zero when the proposal does not exist. *)
Definition conf_yes (s : Confidential.State) (i : uint256) : uint256 :=
  match Confidential.proposals s !! N.to_nat i with
  | Some p => Confidential.yesVotes p
  | None => 0
  end.

(** The plaintexts imported by the successful [depositEncrypted] calls of a
    trace, added up. *)
Fixpoint conf_deposited (tr : list (Env * Confidential.Call)) (s : Confidential.State) : N :=
  match tr with
  | [] => 0
  | (env, c) :: tr' =>
      (match c with
       | Confidential.CallDepositEncrypted amt _ =>
           if is_ok (Confidential.call env c s) then amt mod FHE.two64 else 0
       | _ => 0
       end) + conf_deposited tr' (Confidential.step s (env, c))
  end.

(** The executed amounts of all proposals, added up, on plaintexts. *)
Definition spent_of (ps : list Confidential.Proposal) : N :=
  foldr (fun p acc => Confidential.executedEnc p + acc) 0 ps.

Definition conf_spent (s : Confidential.State) : N := spent_of (Confidential.proposals s).

(** A proposal that is not executed carries no executed amount. *)
Definition conf_pending_zero (s : Confidential.State) : Prop :=
  Forall (fun p => Confidential.executed p = false -> Confidential.executedEnc p = 0)
    (Confidential.proposals s).

(** The public view of the Confidential-spend variant: everything but the
    plaintexts behind the treasury, the requested and the executed amounts,
    and behind the amount of a deposit or of a new proposal. *)
Definition conf_public_proposal (p : Confidential.Proposal) : Confidential.Proposal :=
  {| Confidential.recipient := Confidential.recipient p;
     Confidential.encAmount := 0;
     Confidential.yesVotes := Confidential.yesVotes p;
     Confidential.deadline := Confidential.deadline p;
     Confidential.executed := Confidential.executed p;
     Confidential.executedEnc := 0 |}.

Definition conf_public (s : Confidential.State) : Confidential.State :=
  {| Confidential.owner := Confidential.owner s;
     Confidential.quorum := Confidential.quorum s;
     Confidential._treasury := 0;
     Confidential.proposals := conf_public_proposal <$> Confidential.proposals s;
     Confidential.voted := Confidential.voted s;
     Confidential.isMember := Confidential.isMember s;
     Confidential.events := Confidential.events s |}.

Definition conf_public_call (c : Confidential.Call) : Confidential.Call :=
  match c with
  | Confidential.CallDepositEncrypted _ pf => Confidential.CallDepositEncrypted 0 pf
  | Confidential.CallCreateProposal r _ pf v => Confidential.CallCreateProposal r 0 pf v
  | _ => c
  end.

(** Every proposal carries its own index as [id]. *)
Definition simple_ids_ok (s : Simple.State) : Prop :=
  forall (n : nat) (p : Simple.Proposal),
    Simple.proposals s !! n = Some p -> Simple.id p = N.of_nat n.

(** What later calls keep of a proposal of the Confidential-spend variant:
    its terms, and a yes counter that does not go down. *)
Definition conf_history (p p' : Confidential.Proposal) : Prop :=
  conf_terms p' = conf_terms p /\ Confidential.yesVotes p <= Confidential.yesVotes p'.

(** What later calls keep of an executed proposal: the flag and the
    executed amount. *)
Definition conf_final (p p' : Confidential.Proposal) : Prop :=
  Confidential.executed p = true ->
  Confidential.executed p' = true /\
  Confidential.executedEnc p' = Confidential.executedEnc p.

(** * Properties *)

(** ** Arithmetic of the ciphertext engine *)

Lemma two64_pos : 0 < FHE.two64.
Proof. reflexivity. Qed.

Lemma FHE_sub_le (a b : N) : b <= a -> a < FHE.two64 -> FHE.sub a b = a - b.
Proof.
  intros Hle Hlt. unfold FHE.sub.
  rewrite Z.mod_small by (unfold FHE.two64 in *; lia).
  lia.
Qed.

Lemma FHE_sub_0 (a : N) : a < FHE.two64 -> FHE.sub a 0 = a.
Proof. intros H. rewrite FHE_sub_le; lia. Qed.

Lemma FHE_add_0 (a : N) : a < FHE.two64 -> FHE.add a 0 = a.
Proof. intros H. unfold FHE.add. rewrite N.add_0_r. now apply N.mod_small. Qed.

Lemma FHE_add_1 (a : N) : a + 1 < FHE.two64 -> FHE.add a 1 = a + 1.
Proof. intros H. unfold FHE.add. now apply N.mod_small. Qed.

Lemma FHE_add_lt (a b : N) : FHE.add a b < FHE.two64.
Proof. unfold FHE.add. apply N.mod_lt. discriminate. Qed.

Lemma FHE_asEuint64_small (n : N) : n < FHE.two64 -> FHE.asEuint64 n = n.
Proof. intros H. unfold FHE.asEuint64. now apply N.mod_small. Qed.

(** ** Arrays *)

Lemma array_get_Some {E A : Type} (arr : list A) (i : uint256) (x : A) :
  arr !! N.to_nat i = Some x -> @array_get E A arr i = Ok x.
Proof. intros H. unfold array_get. now rewrite H. Qed.

Lemma array_get_out_of_range {E A : Type} (arr : list A) (i : uint256) :
  N.of_nat (length arr) <= i -> @array_get E A arr i = Err (Panic IndexOutOfBounds).
Proof.
  intros H. unfold array_get.
  rewrite (proj2 (lookup_ge_None arr (N.to_nat i))); [reflexivity | lia].
Qed.

Lemma lookup_in_range {A : Type} (arr : list A) (i : uint256) (x : A) :
  arr !! N.to_nat i = Some x -> (N.of_nat (length arr) <=? i) = false.
Proof.
  intros H. apply lookup_lt_Some in H. apply N.leb_gt. lia.
Qed.

(** ** Confidential variant: [execute] *)

(** What [execute] does once the membership, not-executed and quorum checks
    have passed. *)
Lemma execute_quorum_reached (env : Env) (s : Confidential.State) (id : uint256)
    (p : Confidential.Proposal) :
  Confidential.isMember_of s (msg_sender env) = true ->
  Confidential.proposals s !! N.to_nat id = Some p ->
  Confidential.executed p = false ->
  Confidential.quorum s <= Confidential.yesVotes p ->
  Confidential.execute env id s =
    let toSpend :=
      FHE.select (FHE.le (Confidential.encAmount p) (Confidential._treasury s))
        (Confidential.encAmount p) (FHE.asEuint64 0) in
    let s1 := Confidential.set_treasury s (FHE.sub (Confidential._treasury s) toSpend) in
    Ok (Confidential.emit
          (Confidential.set_proposals s1
             (<[N.to_nat id := Confidential.set_executed p toSpend]>
                (Confidential.proposals s1)))
          (Confidential.Executed id (Confidential.recipient p))).
Proof.
  intros Hm Hp Hx Hq.
  unfold Confidential.execute, Confidential.onlyMember.
  rewrite Hm. cbn [negb].
  rewrite (array_get_Some _ _ _ Hp). cbn [bind].
  rewrite Hx.
  apply N.leb_le in Hq. rewrite Hq. reflexivity.
Qed.

(** C1. In the Confidential-spend variant, when the quorum check passes,
    [execute] computes [toSpend = select(encAmount <= treasury, encAmount, 0)],
    subtracts it from the treasury, stores it in [executedEnc] and sets
    [executed]; in plaintext, a request [Y] at most the balance [X] is paid
    in full ([executedEnc = Y], treasury [X - Y]) and a request above the
    balance pays nothing and leaves the treasury as it was; the call
    succeeds in both cases. *)
Theorem C1_execute_fail_closed_clamp :
  forall (env : Env) (s : Confidential.State) (id : uint256) (p : Confidential.Proposal),
    Confidential.wf s ->
    Confidential.isMember_of s (msg_sender env) = true ->
    Confidential.proposals s !! N.to_nat id = Some p ->
    Confidential.executed p = false ->
    Confidential.quorum s <= Confidential.yesVotes p ->
    let X := Confidential._treasury s in
    let Y := Confidential.encAmount p in
    let toSpend := FHE.select (FHE.le Y X) Y (FHE.asEuint64 0) in
    exists (s' : Confidential.State) (p' : Confidential.Proposal),
      Confidential.execute env id s = Ok s' /\
      Confidential._treasury s' = FHE.sub X toSpend /\
      Confidential.proposals s' !! N.to_nat id = Some p' /\
      Confidential.executedEnc p' = toSpend /\
      Confidential.executed p' = true /\
      (Y <= X -> Confidential.executedEnc p' = Y /\ Confidential._treasury s' = X - Y) /\
      (X < Y -> Confidential.executedEnc p' = 0 /\ Confidential._treasury s' = X).
Proof.
  intros env s id p Hwf Hm Hp Hx Hq X Y toSpend.
  eexists. exists (Confidential.set_executed p toSpend).
  split; [apply (execute_quorum_reached env s id p Hm Hp Hx Hq) |].
  cbn [Confidential._treasury Confidential.proposals Confidential.emit
       Confidential.set_proposals Confidential.set_treasury
       Confidential.executedEnc Confidential.executed Confidential.set_executed].
  fold X Y toSpend.
  split; [reflexivity |].
  split.
  { apply list_lookup_insert_eq. now apply lookup_lt_Some in Hp. }
  split; [reflexivity |]. split; [reflexivity |].
  unfold Confidential.wf in Hwf. fold X in Hwf.
  split; intros H; subst toSpend; unfold FHE.select, FHE.le.
  - apply N.leb_le in H as Hb. rewrite Hb.
    split; [reflexivity | now apply FHE_sub_le].
  - apply N.leb_gt in H as Hb. rewrite Hb.
    split; [reflexivity | now apply FHE_sub_0].
Qed.

Lemma C1_execute_fail_closed_clamp_witness :
  exists (s' : Confidential.State) (p' : Confidential.Proposal),
    Confidential.execute (Scenario.at_time Scenario.alice 90000) 0 (Scenario.conf_voted 20)
      = Ok s' /\
    Confidential._treasury s' = FHE.sub 50 20 /\
    Confidential.proposals s' !! 0%nat = Some p' /\
    Confidential.executedEnc p' = 20 /\
    Confidential.executed p' = true /\
    (20 <= 50 -> Confidential.executedEnc p' = 20 /\ Confidential._treasury s' = 50 - 20) /\
    (50 < 20 -> Confidential.executedEnc p' = 0 /\ Confidential._treasury s' = 50).
Proof.
  apply (C1_execute_fail_closed_clamp
           (Scenario.at_time Scenario.alice 90000) (Scenario.conf_voted 20) 0
           {| Confidential.recipient := Scenario.payee;
              Confidential.encAmount := 20;
              Confidential.yesVotes := 2;
              Confidential.deadline := 86520;
              Confidential.executed := false;
              Confidential.executedEnc := 0 |}).
  - reflexivity.
  - reflexivity.
  - reflexivity.
  - reflexivity.
  - vm_compute. discriminate.
Defined.

(** What [execute] does on a not-yet-executed proposal below the quorum:
    the deadline itself already counts as "voting over". *)
Lemma execute_below_quorum (env : Env) (s : Confidential.State) (id : uint256)
    (p : Confidential.Proposal) :
  Confidential.isMember_of s (msg_sender env) = true ->
  Confidential.proposals s !! N.to_nat id = Some p ->
  Confidential.executed p = false ->
  Confidential.yesVotes p < Confidential.quorum s ->
  Confidential.execute env id s =
    if block_timestamp env <? Confidential.deadline p
    then Err (Custom Confidential.VotingOngoing)
    else Err (Custom Confidential.QuorumNotReached).
Proof.
  intros Hm Hp Hx Hq.
  unfold Confidential.execute, Confidential.onlyMember.
  rewrite Hm. cbn [negb].
  rewrite (array_get_Some _ _ _ Hp). cbn [bind].
  rewrite Hx.
  apply N.leb_gt in Hq. rewrite Hq. reflexivity.
Qed.

(** C3. At a block timestamp equal to the deadline the voting period has
    not ended ([voteYes] by a member who has not voted still succeeds), yet
    [execute] on the proposal, which is below the quorum, reverts with
    [QuorumNotReached] and not with [VotingOngoing]; one second earlier it
    reverts with [VotingOngoing], one second later with [QuorumNotReached]. *)
Theorem C3_execute_at_deadline_reports_quorum_failure :
  let s := Scenario.conf_one_vote in
  Confidential.proposals s !! 0%nat =
    Some {| Confidential.recipient := Scenario.payee;
            Confidential.encAmount := 20;
            Confidential.yesVotes := 1;
            Confidential.deadline := 86520;
            Confidential.executed := false;
            Confidential.executedEnc := 0 |} /\
  Confidential.quorum s = 2 /\
  Confidential.execute (Scenario.at_time Scenario.alice 86519) 0 s
    = Err (Custom Confidential.VotingOngoing) /\
  Confidential.execute (Scenario.at_time Scenario.alice 86520) 0 s
    = Err (Custom Confidential.QuorumNotReached) /\
  Confidential.execute (Scenario.at_time Scenario.alice 86521) 0 s
    = Err (Custom Confidential.QuorumNotReached) /\
  is_ok (Confidential.voteYes (Scenario.at_time Scenario.bob 86520) 0 s) = true /\
  is_ok (Confidential.execute (Scenario.at_time Scenario.alice 86520) 0
           (Confidential.step s
              (Scenario.at_time Scenario.bob 86520, Confidential.CallVoteYes 0))) = true.
Proof. repeat split; reflexivity. Qed.

(** C9. In the Confidential-spend variant a not-yet-executed proposal whose
    yes votes have reached the quorum is executed by any member at once,
    also strictly before its deadline. *)
Theorem C9_execute_before_deadline :
  forall (env : Env) (s : Confidential.State) (id : uint256) (p : Confidential.Proposal),
    Confidential.isMember_of s (msg_sender env) = true ->
    Confidential.proposals s !! N.to_nat id = Some p ->
    Confidential.executed p = false ->
    Confidential.quorum s <= Confidential.yesVotes p ->
    block_timestamp env < Confidential.deadline p ->
    exists (s' : Confidential.State) (p' : Confidential.Proposal),
      Confidential.execute env id s = Ok s' /\
      Confidential.proposals s' !! N.to_nat id = Some p' /\
      Confidential.executed p' = true.
Proof.
  intros env s id p Hm Hp Hx Hq _.
  eexists.
  exists (Confidential.set_executed p
            (FHE.select (FHE.le (Confidential.encAmount p) (Confidential._treasury s))
               (Confidential.encAmount p) (FHE.asEuint64 0))).
  split; [apply (execute_quorum_reached env s id p Hm Hp Hx Hq) |].
  cbn [Confidential.proposals Confidential.emit Confidential.set_proposals
       Confidential.set_treasury].
  split; [| reflexivity].
  apply list_lookup_insert_eq. now apply lookup_lt_Some in Hp.
Qed.

Lemma C9_execute_before_deadline_witness :
  exists (s' : Confidential.State) (p' : Confidential.Proposal),
    Confidential.execute (Scenario.at_time Scenario.bob 150) 0 (Scenario.conf_voted 20)
      = Ok s' /\
    Confidential.proposals s' !! 0%nat = Some p' /\
    Confidential.executed p' = true.
Proof.
  apply (C9_execute_before_deadline
           (Scenario.at_time Scenario.bob 150) (Scenario.conf_voted 20) 0
           {| Confidential.recipient := Scenario.payee;
              Confidential.encAmount := 20;
              Confidential.yesVotes := 2;
              Confidential.deadline := 86520;
              Confidential.executed := false;
              Confidential.executedEnc := 0 |}).
  - reflexivity.
  - reflexivity.
  - reflexivity.
  - vm_compute. discriminate.
  - reflexivity.
Defined.

(** ** Simple variant: [finalizeProposal] *)

Lemma finalizeProposal_existing (env : Env) (s : Simple.State) (i : uint256)
    (p : Simple.Proposal) :
  Simple.proposals s !! N.to_nat i = Some p ->
  Simple.finalizeProposal env i s =
    if Simple.finalized p then Err (Custom Simple.AlreadyFinalized) else
    if negb (may_finalize env s p) then Err (Custom Simple.NotProposer) else
    if block_timestamp env <=? Simple.deadline p then Err (Custom Simple.VotingEnded) else
    Ok (Simple.set_proposals s
          (<[N.to_nat i := Simple.set_finalized p true]> (Simple.proposals s))
          (Simple.ProposalFinalized i)).
Proof.
  intros Hp. unfold Simple.finalizeProposal, Simple.proposals_length, may_finalize.
  rewrite (lookup_in_range _ _ _ Hp), (array_get_Some _ _ _ Hp). cbn [bind].
  rewrite negb_orb. reflexivity.
Qed.

(** C7. On an existing proposal of the Simple variant [finalizeProposal]
    checks, in this order: already finalized ([AlreadyFinalized]), caller
    neither owner nor proposer ([NotProposer]), current time at most the
    deadline ([VotingEnded]); it succeeds exactly when none of the three
    applies, and after a success every further call on that id fails with
    [AlreadyFinalized]. *)
Theorem C7_finalizeProposal_outcomes :
  forall (env : Env) (s : Simple.State) (i : uint256) (p : Simple.Proposal),
    Simple.proposals s !! N.to_nat i = Some p ->
    (Simple.finalized p = true ->
       Simple.finalizeProposal env i s = Err (Custom Simple.AlreadyFinalized)) /\
    (Simple.finalized p = false -> may_finalize env s p = false ->
       Simple.finalizeProposal env i s = Err (Custom Simple.NotProposer)) /\
    (Simple.finalized p = false -> may_finalize env s p = true ->
       block_timestamp env <= Simple.deadline p ->
       Simple.finalizeProposal env i s = Err (Custom Simple.VotingEnded)) /\
    (is_ok (Simple.finalizeProposal env i s) = true <->
       Simple.finalized p = false /\ may_finalize env s p = true /\
       Simple.deadline p < block_timestamp env) /\
    (forall s' : Simple.State,
       Simple.finalizeProposal env i s = Ok s' ->
       Simple.proposals s' !! N.to_nat i = Some (Simple.set_finalized p true) /\
       forall env' : Env,
         Simple.finalizeProposal env' i s' = Err (Custom Simple.AlreadyFinalized)).
Proof.
  intros env s i p Hp.
  rewrite (finalizeProposal_existing env s i p Hp).
  assert (Hlen : (N.to_nat i < length (Simple.proposals s))%nat)
    by now apply lookup_lt_Some in Hp.
  split; [| split; [| split; [| split]]].
  - intros ->. reflexivity.
  - intros -> ->. reflexivity.
  - intros -> -> Ht. apply N.leb_le in Ht. now rewrite Ht.
  - split.
    + destruct (Simple.finalized p); [discriminate |].
      destruct (may_finalize env s p); [| discriminate].
      cbn [negb]. destruct (N.leb_spec (block_timestamp env) (Simple.deadline p));
        [discriminate | intros _; auto].
    + intros (-> & -> & Ht). apply N.leb_gt in Ht. now rewrite Ht.
  - intros s'.
    destruct (Simple.finalized p); [discriminate |].
    destruct (negb (may_finalize env s p)); [discriminate |].
    destruct (block_timestamp env <=? Simple.deadline p); [discriminate |].
    intros H. injection H as <-.
    assert (Hp' : Simple.proposals
                    (Simple.set_proposals s
                       (<[N.to_nat i := Simple.set_finalized p true]> (Simple.proposals s))
                       (Simple.ProposalFinalized i)) !! N.to_nat i
                  = Some (Simple.set_finalized p true)).
    { cbn [Simple.proposals Simple.set_proposals]. now apply list_lookup_insert_eq. }
    split; [exact Hp' |].
    intros env'.
    now rewrite (finalizeProposal_existing env' _ i _ Hp').
Qed.

Lemma C7_finalizeProposal_outcomes_witness :
  let env := Scenario.at_time Scenario.alice 700000 in
  let s := Scenario.simple_created in
  let p :=
    {| Simple.id := 0;
       Simple.title := "grant";
       Simple.description := "fund the grant";
       Simple.proposer := Scenario.alice;
       Simple.amount := 1000;
       Simple.recipient := Scenario.payee;
       Simple.deadline := 604920;
       Simple.encryptedYesVotes := 0;
       Simple.encryptedNoVotes := 0;
       Simple.finalized := false |} in
  (Simple.finalized p = true ->
     Simple.finalizeProposal env 0 s = Err (Custom Simple.AlreadyFinalized)) /\
  (Simple.finalized p = false -> may_finalize env s p = false ->
     Simple.finalizeProposal env 0 s = Err (Custom Simple.NotProposer)) /\
  (Simple.finalized p = false -> may_finalize env s p = true ->
     block_timestamp env <= Simple.deadline p ->
     Simple.finalizeProposal env 0 s = Err (Custom Simple.VotingEnded)) /\
  (is_ok (Simple.finalizeProposal env 0 s) = true <->
     Simple.finalized p = false /\ may_finalize env s p = true /\
     Simple.deadline p < block_timestamp env) /\
  (forall s' : Simple.State,
     Simple.finalizeProposal env 0 s = Ok s' ->
     Simple.proposals s' !! N.to_nat 0 = Some (Simple.set_finalized p true) /\
     forall env' : Env,
       Simple.finalizeProposal env' 0 s' = Err (Custom Simple.AlreadyFinalized)).
Proof.
  intros env s p. apply (C7_finalizeProposal_outcomes env s 0 p). reflexivity.
Defined.

(** ** Mappings *)

Lemma mapping_get_insert {K V : Type} `{Countable K} (d v : V) (m : gmap K V) (k k' : K) :
  mapping_get d (<[k := v]> m) k' = if decide (k = k') then v else mapping_get d m k'.
Proof.
  unfold mapping_get. rewrite lookup_insert. now destruct (decide (k = k')).
Qed.

Lemma mapping_get_insert_eq {K V : Type} `{Countable K} (d v : V) (m : gmap K V) (k : K) :
  mapping_get d (<[k := v]> m) k = v.
Proof. rewrite mapping_get_insert. now destruct (decide (k = k)). Qed.

Lemma mapping_get_insert_ne {K V : Type} `{Countable K} (d v : V) (m : gmap K V) (k k' : K) :
  k <> k' -> mapping_get d (<[k := v]> m) k' = mapping_get d m k'.
Proof. intros Hne. rewrite mapping_get_insert. now destruct (decide (k = k')). Qed.

Lemma mapping_get_empty {K V : Type} `{Countable K} (d : V) (k : K) :
  mapping_get d (∅ : gmap K V) k = d.
Proof. unfold mapping_get. now rewrite lookup_empty. Qed.

Lemma array_get_Ok {E A : Type} (arr : list A) (i : uint256) (x : A) :
  @array_get E A arr i = Ok x -> arr !! N.to_nat i = Some x.
Proof.
  unfold array_get. destruct (arr !! N.to_nat i); [| discriminate].
  now intros [= ->].
Qed.

(** Case analysis on the guards of a call that returned [Ok]. *)
Ltac break_ok :=
  repeat match goal with
    | H : Err _ = Ok _ |- _ => discriminate H
    | H : Ok _ = Ok _ |- _ => injection H as H
    | H : bind ?m _ = Ok _ |- _ =>
        let E := fresh "Hbind" in destruct m as [?val | ?rev] eqn:E; cbn [bind] in H
    | H : (if ?b then _ else _) = Ok _ |- _ =>
        let E := fresh "Hif" in destruct b eqn:E
    end.

Lemma simple_call_Ok (env : Env) (c : Simple.Call) (s s' : Simple.State) :
  Simple.call env c s = Ok s' -> Simple.dispatch env c s = Ok s'.
Proof. unfold Simple.call. now destruct (_ && _). Qed.

Lemma conf_call_Ok (env : Env) (c : Confidential.Call) (s s' : Confidential.State) :
  Confidential.call env c s = Ok s' -> Confidential.dispatch env c s = Ok s'.
Proof. unfold Confidential.call. now destruct (negb _). Qed.

Lemma conf_call_no_value (env : Env) (c : Confidential.Call) (s : Confidential.State) :
  msg_value env = 0 -> Confidential.call env c s = Confidential.dispatch env c s.
Proof. intros Hv. unfold Confidential.call. now rewrite Hv. Qed.

Lemma simple_call_no_value (env : Env) (c : Simple.Call) (s : Simple.State) :
  msg_value env = 0 -> Simple.call env c s = Simple.dispatch env c s.
Proof. intros Hv. unfold Simple.call. rewrite Hv. now rewrite andb_false_r. Qed.

(** ** Simple variant: the deposit ledger *)

Lemma deposit_Ok (env : Env) (s s' : Simple.State) :
  Simple.deposit env s = Ok s' ->
  msg_value env <> 0 /\
  forall a, Simple.deposits_of s' a =
            if decide (msg_sender env = a)
            then Simple.deposits_of s a + msg_value env
            else Simple.deposits_of s a.
Proof.
  unfold Simple.deposit, checked_add. intros H. break_ok. subst s' val.
  split; [now apply N.eqb_neq |].
  intros a. unfold Simple.deposits_of at 1.
  cbn [Simple.deposits Simple.set_deposits].
  rewrite mapping_get_insert.
  destruct (decide (msg_sender env = a)) as [<- |]; reflexivity.
Qed.

Lemma withdraw_Ok (env : Env) (amount : uint256) (s s' : Simple.State) :
  Simple.withdraw env amount s = Ok s' ->
  amount <= Simple.deposits_of s (msg_sender env) /\
  forall a, Simple.deposits_of s' a =
            if decide (msg_sender env = a)
            then Simple.deposits_of s a - amount
            else Simple.deposits_of s a.
Proof.
  unfold Simple.withdraw, checked_sub. intros H. break_ok. subst s' val.
  split; [now apply N.ltb_ge |].
  intros a. unfold Simple.deposits_of at 1.
  cbn [Simple.deposits Simple.set_deposits].
  rewrite mapping_get_insert.
  destruct (decide (msg_sender env = a)) as [<- |]; reflexivity.
Qed.

(** No other call writes the deposit ledger. *)
Lemma call_other_deposits (env : Env) (c : Simple.Call) (s s' : Simple.State) :
  Simple.call env c s = Ok s' ->
  c <> Simple.CallDeposit ->
  (forall amount, c <> Simple.CallWithdraw amount) ->
  Simple.deposits s' = Simple.deposits s.
Proof.
  intros H Hd Hw. apply simple_call_Ok in H.
  destruct c; try congruence; try (now exfalso; eapply Hw);
    cbn [Simple.dispatch] in H;
    unfold Simple.createProposal, Simple.vote, Simple.finalizeProposal, Simple.keep,
      Simple.updateMinDeposit in H;
    break_ok; now subst.
Qed.

Lemma simple_run_cons (ec : Env * Simple.Call) (tr : list (Env * Simple.Call))
    (s : Simple.State) :
  Simple.run (ec :: tr) s = Simple.run tr (Simple.step s ec).
Proof. reflexivity. Qed.

Lemma ledger_balance (tr : list (Env * Simple.Call)) :
  forall (s : Simple.State) (a : address),
    Simple.deposits_of (Simple.run tr s) a + Simple.withdrawn a tr s
    = Simple.deposits_of s a + Simple.deposited a tr s.
Proof.
  induction tr as [| [env c] tr IH]; intros s a.
  - cbn. lia.
  - rewrite simple_run_cons. cbn [Simple.deposited Simple.withdrawn].
    specialize (IH (Simple.step s (env, c)) a).
    unfold Simple.step in *. cbn [fst snd] in *.
    destruct (Simple.call env c s) as [s1 | r] eqn:Hc.
    + destruct c;
        try (assert (Hd : Simple.deposits s1 = Simple.deposits s)
               by (eapply call_other_deposits; [exact Hc | discriminate | discriminate]);
             unfold Simple.deposits_of in *; rewrite Hd in IH; lia).
      * apply simple_call_Ok, deposit_Ok in Hc as [_ Hd].
        rewrite (Hd a) in IH. cbn [is_ok andb].
        destruct (decide (msg_sender env = a)) as [Heq | Hne]; [subst a |].
        -- rewrite N.eqb_refl. lia.
        -- apply N.eqb_neq in Hne. rewrite Hne. lia.
      * apply simple_call_Ok, withdraw_Ok in Hc as [Hle Hd].
        rewrite (Hd a) in IH. cbn [is_ok andb].
        destruct (decide (msg_sender env = a)) as [Heq | Hne]; [subst a |].
        -- rewrite N.eqb_refl. lia.
        -- apply N.eqb_neq in Hne. rewrite Hne. lia.
    + destruct c; cbn [is_ok andb]; lia.
Qed.

(** C8. Along every sequence of calls of the Simple variant started from
    the deployed contract, the recorded deposit balance of an identity is
    the sum of its successful deposits minus the sum of its successful
    withdrawals, and the withdrawals never exceed the deposits; a deposit of
    value zero fails with [InvalidAmount], and so does a withdrawal above
    the caller's recorded balance, which leaves the state as it was. *)
Theorem C8_deposit_ledger :
  forall (env0 : Env) (minDeposit : uint256) (tr : list (Env * Simple.Call)) (a : address),
    let s0 := Simple.constructor env0 minDeposit in
    (Simple.withdrawn a tr s0 <= Simple.deposited a tr s0 /\
     Simple.deposits_of (Simple.run tr s0) a
     = Simple.deposited a tr s0 - Simple.withdrawn a tr s0) /\
    (forall (env : Env) (s : Simple.State),
       msg_value env = 0 -> Simple.deposit env s = Err (Custom Simple.InvalidAmount)) /\
    (forall (env : Env) (amount : uint256) (s : Simple.State),
       Simple.deposits_of s (msg_sender env) < amount ->
       Simple.withdraw env amount s = Err (Custom Simple.InvalidAmount) /\
       Simple.step s (env, Simple.CallWithdraw amount) = s).
Proof.
  intros env0 minDeposit tr a s0.
  split; [| split].
  - pose proof (ledger_balance tr s0 a) as H.
    assert (H0 : Simple.deposits_of s0 a = 0) by apply mapping_get_empty.
    rewrite H0 in H. lia.
  - intros env s Hv. unfold Simple.deposit. now rewrite Hv.
  - intros env amount s Hlt.
    assert (Hw : Simple.withdraw env amount s = Err (Custom Simple.InvalidAmount)).
    { unfold Simple.withdraw. apply N.ltb_lt in Hlt. now rewrite Hlt. }
    split; [exact Hw |].
    unfold Simple.step, Simple.call. cbn [fst snd Simple.dispatch]. rewrite Hw.
    now destruct (_ && _).
Qed.

Lemma C8_deposit_ledger_witness :
  let env0 := Scenario.at_time Scenario.deployer 100 in
  let tr :=
    [ (Scenario.paying Scenario.alice 110 100, Simple.CallDeposit);
      (Scenario.at_time Scenario.alice 120, Simple.CallWithdraw 30);
      (Scenario.at_time Scenario.alice 130, Simple.CallWithdraw 200);
      (Scenario.paying Scenario.bob 140 0, Simple.CallDeposit);
      (Scenario.paying Scenario.bob 150 5, Simple.CallDeposit) ] in
  let s0 := Simple.constructor env0 10 in
  (Simple.withdrawn Scenario.alice tr s0 <= Simple.deposited Scenario.alice tr s0 /\
   Simple.deposits_of (Simple.run tr s0) Scenario.alice
   = Simple.deposited Scenario.alice tr s0 - Simple.withdrawn Scenario.alice tr s0) /\
  (forall (env : Env) (s : Simple.State),
     msg_value env = 0 -> Simple.deposit env s = Err (Custom Simple.InvalidAmount)) /\
  (forall (env : Env) (amount : uint256) (s : Simple.State),
     Simple.deposits_of s (msg_sender env) < amount ->
     Simple.withdraw env amount s = Err (Custom Simple.InvalidAmount) /\
     Simple.step s (env, Simple.CallWithdraw amount) = s).
Proof.
  intros env0 tr s0. exact (C8_deposit_ledger env0 10 tr Scenario.alice).
Defined.

(** ** Simple variant: [vote] *)

Lemma asEuint64_0 : FHE.asEuint64 0 = 0.
Proof. reflexivity. Qed.

Lemma asEuint64_1 : FHE.asEuint64 1 = 1.
Proof. reflexivity. Qed.

(** [vote] on an existing proposal: the guards in their order, then the
    homomorphic update of both tallies and the vote record. *)
Lemma vote_existing (env : Env) (s : Simple.State) (i : uint256)
    (ev : FHE.externalEuint64) (pf : bool) (p : Simple.Proposal) :
  Simple.proposals s !! N.to_nat i = Some p ->
  Simple.vote env i ev pf s =
    if Simple.deposits_of s (msg_sender env) <? Simple.minDepositToVote s
    then Err (Custom Simple.InsufficientDeposit) else
    if Simple.hasVoted_of s i (msg_sender env) then Err (Custom Simple.AlreadyVoted) else
    if Simple.deadline p <? block_timestamp env then Err (Custom Simple.VotingEnded) else
    let! voteValue := FHE.fromExternal ev pf in
    let yes := FHE.add (Simple.encryptedYesVotes p)
                 (FHE.select (FHE.eq voteValue 1) 1 0) in
    let no := FHE.add (Simple.encryptedNoVotes p)
                (FHE.select (FHE.eq voteValue 0) 1 0) in
    let s1 := Simple.set_proposals s
                (<[N.to_nat i := Simple.set_tallies p yes no]> (Simple.proposals s))
                (Simple.VoteCast i (msg_sender env)) in
    Ok (Simple.set_hasVoted s1 (<[(i, msg_sender env) := true]> (Simple.hasVoted s1))).
Proof.
  intros Hp. unfold Simple.vote, Simple.proposals_length.
  rewrite (lookup_in_range _ _ _ Hp), (array_get_Some _ _ _ Hp). cbn [bind].
  rewrite asEuint64_0, asEuint64_1. reflexivity.
Qed.

(** C4. A successful [vote] of the Simple variant, read on plaintexts: a
    ballot 1 adds one to the yes tally and leaves the no tally, a ballot 0
    adds one to the no tally and leaves the yes tally, any other ballot
    leaves both tallies; in every case the call succeeds and the caller is
    recorded as having voted.  (The tallies are 64-bit counters: "adds one"
    is exact below the top value [2^64 - 1].) *)
Theorem C4_vote_tallies :
  forall (env : Env) (s : Simple.State) (i : uint256) (ev : FHE.externalEuint64)
         (pf : bool) (ballot : FHE.euint64) (p : Simple.Proposal),
    Simple.wf s ->
    Simple.proposals s !! N.to_nat i = Some p ->
    Simple.minDepositToVote s <= Simple.deposits_of s (msg_sender env) ->
    Simple.hasVoted_of s i (msg_sender env) = false ->
    block_timestamp env <= Simple.deadline p ->
    @FHE.fromExternal Simple.Error ev pf = Ok ballot ->
    exists (s' : Simple.State) (p' : Simple.Proposal),
      Simple.vote env i ev pf s = Ok s' /\
      Simple.proposals s' !! N.to_nat i = Some p' /\
      Simple.hasVoted_of s' i (msg_sender env) = true /\
      (ballot = 1 ->
         Simple.encryptedYesVotes p' = FHE.add (Simple.encryptedYesVotes p) 1 /\
         (Simple.encryptedYesVotes p + 1 < FHE.two64 ->
            Simple.encryptedYesVotes p' = Simple.encryptedYesVotes p + 1) /\
         Simple.encryptedNoVotes p' = Simple.encryptedNoVotes p) /\
      (ballot = 0 ->
         Simple.encryptedNoVotes p' = FHE.add (Simple.encryptedNoVotes p) 1 /\
         (Simple.encryptedNoVotes p + 1 < FHE.two64 ->
            Simple.encryptedNoVotes p' = Simple.encryptedNoVotes p + 1) /\
         Simple.encryptedYesVotes p' = Simple.encryptedYesVotes p) /\
      (ballot <> 1 -> ballot <> 0 ->
         Simple.encryptedYesVotes p' = Simple.encryptedYesVotes p /\
         Simple.encryptedNoVotes p' = Simple.encryptedNoVotes p).
Proof.
  intros env s i ev pf ballot p Hwf Hp Hdep Hnv Ht Hev.
  assert (Hwfp : Simple.wf_proposal p).
  { unfold Simple.wf in Hwf. rewrite Forall_lookup in Hwf. exact (Hwf _ _ Hp). }
  destruct Hwfp as [Hyes Hno].
  rewrite (vote_existing env s i ev pf p Hp).
  apply N.ltb_ge in Hdep. rewrite Hdep, Hnv.
  apply N.ltb_ge in Ht. rewrite Ht, Hev. cbn [bind].
  eexists. eexists. split; [reflexivity |].
  cbn [Simple.proposals Simple.set_hasVoted Simple.set_proposals].
  split; [apply list_lookup_insert_eq; now apply lookup_lt_Some in Hp |].
  split.
  { unfold Simple.hasVoted_of. cbn [Simple.hasVoted Simple.set_hasVoted].
    apply mapping_get_insert_eq. }
  cbn [Simple.encryptedYesVotes Simple.encryptedNoVotes Simple.set_tallies].
  unfold FHE.select, FHE.eq.
  split; [| split].
  - intros ->. cbn [N.eqb Pos.eqb].
    split; [reflexivity |]. split; [apply FHE_add_1 | now apply FHE_add_0].
  - intros ->. cbn [N.eqb Pos.eqb].
    split; [reflexivity |]. split; [apply FHE_add_1 | now apply FHE_add_0].
  - intros H1 H0. apply N.eqb_neq in H1, H0. rewrite H1, H0.
    split; now apply FHE_add_0.
Qed.

Lemma C4_vote_tallies_witness :
  exists (s' : Simple.State) (p' : Simple.Proposal),
    Simple.vote (Scenario.at_time Scenario.bob 200) 0 7 true Scenario.simple_created = Ok s' /\
    Simple.proposals s' !! N.to_nat 0 = Some p' /\
    Simple.hasVoted_of s' 0 Scenario.bob = true /\
    (7 = 1 ->
       Simple.encryptedYesVotes p' = FHE.add 0 1 /\
       (0 + 1 < FHE.two64 -> Simple.encryptedYesVotes p' = 0 + 1) /\
       Simple.encryptedNoVotes p' = 0) /\
    (7 = 0 ->
       Simple.encryptedNoVotes p' = FHE.add 0 1 /\
       (0 + 1 < FHE.two64 -> Simple.encryptedNoVotes p' = 0 + 1) /\
       Simple.encryptedYesVotes p' = 0) /\
    (7 <> 1 -> 7 <> 0 ->
       Simple.encryptedYesVotes p' = 0 /\ Simple.encryptedNoVotes p' = 0).
Proof.
  apply (C4_vote_tallies
           (Scenario.at_time Scenario.bob 200) Scenario.simple_created 0 7 true 7
           {| Simple.id := 0;
              Simple.title := "grant";
              Simple.description := "fund the grant";
              Simple.proposer := Scenario.alice;
              Simple.amount := 1000;
              Simple.recipient := Scenario.payee;
              Simple.deadline := 604920;
              Simple.encryptedYesVotes := 0;
              Simple.encryptedNoVotes := 0;
              Simple.finalized := false |}).
  - repeat constructor.
  - reflexivity.
  - vm_compute. discriminate.
  - reflexivity.
  - vm_compute. discriminate.
  - reflexivity.
Defined.

(** ** What the calls keep *)

Lemma lookup_insert_kept {A : Type} (R : A -> A -> Prop) (l : list A) (k n : nat)
    (x y p : A) :
  (forall z, R z z) ->
  l !! k = Some x -> R x y -> l !! n = Some p ->
  exists p', <[k := y]> l !! n = Some p' /\ R p p'.
Proof.
  intros Hrefl Hk Hxy Hn. destruct (decide (k = n)) as [-> | Hne].
  - exists y. split.
    + apply list_lookup_insert_eq. now apply lookup_lt_Some in Hk.
    + congruence.
  - exists p. split; [| apply Hrefl].
    now rewrite list_lookup_insert_ne.
Qed.

Lemma lookup_app_kept {A : Type} (R : A -> A -> Prop) (l l' : list A) (n : nat) (p : A) :
  (forall z, R z z) ->
  l !! n = Some p -> exists p', (l ++ l') !! n = Some p' /\ R p p'.
Proof.
  intros Hrefl Hn. exists p. split; [| apply Hrefl].
  rewrite lookup_app_l; [exact Hn | now apply lookup_lt_Some in Hn].
Qed.

Lemma simple_kept_refl (p : Simple.Proposal) : simple_kept p p.
Proof. unfold simple_kept. auto. Qed.

Lemma simple_kept_trans (p1 p2 p3 : Simple.Proposal) :
  simple_kept p1 p2 -> simple_kept p2 p3 -> simple_kept p1 p3.
Proof. unfold simple_kept. intros (? & ? & ?) (? & ? & ?). repeat split; try congruence; auto. Qed.

Lemma simple_extends_refl (s : Simple.State) : simple_extends s s.
Proof.
  unfold simple_extends. repeat split; auto.
  intros n p Hp. exists p. split; [exact Hp | apply simple_kept_refl].
Qed.

Lemma simple_extends_trans (s1 s2 s3 : Simple.State) :
  simple_extends s1 s2 -> simple_extends s2 s3 -> simple_extends s1 s3.
Proof.
  intros (Ho1 & Hp1 & Hv1) (Ho2 & Hp2 & Hv2). unfold simple_extends.
  split; [congruence |]. split; [| auto].
  intros n p Hp. destruct (Hp1 n p Hp) as (p' & Hp' & Hk).
  destruct (Hp2 n p' Hp') as (p'' & Hp'' & Hk').
  exists p''. split; [exact Hp'' | eapply simple_kept_trans; eassumption].
Qed.

(** A state that differs only in fields the relation does not read. *)
Lemma simple_extends_same (s s' : Simple.State) :
  Simple.owner s' = Simple.owner s ->
  Simple.proposals s' = Simple.proposals s ->
  Simple.hasVoted s' = Simple.hasVoted s ->
  simple_extends s s'.
Proof.
  intros Ho Hp Hv. unfold simple_extends, Simple.hasVoted_of.
  rewrite Ho, Hp, Hv. repeat split; auto.
  intros n p Hn. exists p. split; [exact Hn | apply simple_kept_refl].
Qed.

Lemma simple_call_extends (env : Env) (c : Simple.Call) (s s' : Simple.State) :
  Simple.call env c s = Ok s' -> simple_extends s s'.
Proof.
  intros H. apply simple_call_Ok in H. destruct c; cbn [Simple.dispatch] in H;
    unfold Simple.deposit, Simple.withdraw, Simple.createProposal, Simple.vote,
      Simple.finalizeProposal, Simple.keep, Simple.updateMinDeposit in H;
    break_ok; subst;
    try (apply simple_extends_same; reflexivity);
    try apply simple_extends_refl.
  - (* createProposal *)
    split; [reflexivity |]. split; [| auto].
    intros n p Hn. cbn [fst Simple.proposals Simple.set_proposals].
    now apply lookup_app_kept; [apply simple_kept_refl |].
  - (* vote *)
    apply array_get_Ok in Hbind.
    split; [reflexivity |]. split.
    + intros n p Hn. cbn [Simple.proposals Simple.set_hasVoted Simple.set_proposals].
      eapply lookup_insert_kept;
        [apply simple_kept_refl | exact Hbind | | exact Hn].
      unfold simple_kept. auto.
    + intros i a Hv. unfold Simple.hasVoted_of in *.
      cbn [Simple.hasVoted Simple.set_hasVoted Simple.set_proposals].
      rewrite mapping_get_insert. now destruct (decide _).
  - (* finalizeProposal *)
    apply array_get_Ok in Hbind.
    split; [reflexivity |]. split; [| auto].
    intros n p Hn. cbn [Simple.proposals Simple.set_proposals].
    eapply lookup_insert_kept;
      [apply simple_kept_refl | exact Hbind | | exact Hn].
    unfold simple_kept. auto.
Qed.

Lemma simple_step_extends (s : Simple.State) (ec : Env * Simple.Call) :
  simple_extends s (Simple.step s ec).
Proof.
  unfold Simple.step. destruct (Simple.call ec.1 ec.2 s) eqn:Hc.
  - eapply simple_call_extends; eassumption.
  - apply simple_extends_refl.
Qed.

Lemma simple_run_extends (tr : list (Env * Simple.Call)) :
  forall s : Simple.State, simple_extends s (Simple.run tr s).
Proof.
  induction tr as [| ec tr IH]; intros s.
  - apply simple_extends_refl.
  - rewrite simple_run_cons.
    eapply simple_extends_trans; [apply simple_step_extends | apply IH].
Qed.

Lemma conf_kept_refl (p : Confidential.Proposal) : conf_kept p p.
Proof. unfold conf_kept. auto. Qed.

Lemma conf_kept_trans (p1 p2 p3 : Confidential.Proposal) :
  conf_kept p1 p2 -> conf_kept p2 p3 -> conf_kept p1 p3.
Proof. unfold conf_kept. intros (? & ?) (? & ?). split; [congruence | auto]. Qed.

Lemma conf_extends_refl (s : Confidential.State) : conf_extends s s.
Proof.
  unfold conf_extends. repeat split; auto.
  intros n p Hp. exists p. split; [exact Hp | apply conf_kept_refl].
Qed.

Lemma conf_extends_trans (s1 s2 s3 : Confidential.State) :
  conf_extends s1 s2 -> conf_extends s2 s3 -> conf_extends s1 s3.
Proof.
  intros (Ho1 & Hp1 & Hv1) (Ho2 & Hp2 & Hv2). unfold conf_extends.
  split; [congruence |]. split; [| auto].
  intros n p Hp. destruct (Hp1 n p Hp) as (p' & Hp' & Hk).
  destruct (Hp2 n p' Hp') as (p'' & Hp'' & Hk').
  exists p''. split; [exact Hp'' | eapply conf_kept_trans; eassumption].
Qed.

Lemma conf_extends_same (s s' : Confidential.State) :
  Confidential.owner s' = Confidential.owner s ->
  Confidential.proposals s' = Confidential.proposals s ->
  Confidential.voted s' = Confidential.voted s ->
  conf_extends s s'.
Proof.
  intros Ho Hp Hv. unfold conf_extends, Confidential.voted_of.
  rewrite Ho, Hp, Hv. repeat split; auto.
  intros n p Hn. exists p. split; [exact Hn | apply conf_kept_refl].
Qed.

Ltac unfold_conf_call H :=
  cbn [Confidential.dispatch] in H;
  unfold Confidential.addMember, Confidential.removeMember, Confidential.depositEncrypted,
    Confidential.getTreasury, Confidential.createProposal, Confidential.updateQuorum,
    Confidential.voteYes, Confidential.execute, Confidential.getExecutedAmount,
    Confidential.getRequestedAmount, Confidential.cancelProposal, Confidential.keep,
    Confidential.onlyOwner, Confidential.onlyMember in H.

Lemma conf_call_extends (env : Env) (c : Confidential.Call) (s s' : Confidential.State) :
  Confidential.call env c s = Ok s' -> conf_extends s s'.
Proof.
  intros H. apply conf_call_Ok in H.
  destruct c; unfold_conf_call H; break_ok; subst;
    try (apply conf_extends_same; reflexivity);
    try apply conf_extends_refl.
  - (* createProposal *)
    split; [reflexivity |]. split; [| auto].
    intros n p Hn.
    cbn [fst Confidential.proposals Confidential.emit Confidential.set_proposals].
    now apply lookup_app_kept; [apply conf_kept_refl |].
  - (* voteYes *)
    apply array_get_Ok in Hbind.
    split; [reflexivity |]. split.
    + intros n p Hn.
      cbn [Confidential.proposals Confidential.emit Confidential.set_proposals
           Confidential.set_voted].
      eapply lookup_insert_kept;
        [apply conf_kept_refl | exact Hbind | | exact Hn].
      unfold conf_kept. auto.
    + intros i a Hv. unfold Confidential.voted_of in *.
      cbn [Confidential.voted Confidential.emit Confidential.set_proposals
           Confidential.set_voted].
      rewrite mapping_get_insert. now destruct (decide _).
  - (* execute *)
    apply array_get_Ok in Hbind.
    split; [reflexivity |]. split; [| auto].
    intros n p Hn.
    cbn [Confidential.proposals Confidential.emit Confidential.set_proposals
         Confidential.set_treasury].
    eapply lookup_insert_kept;
      [apply conf_kept_refl | exact Hbind | | exact Hn].
    unfold conf_kept. auto.
  - (* cancelProposal *)
    apply array_get_Ok in Hbind.
    split; [reflexivity |]. split; [| auto].
    intros n p Hn.
    cbn [Confidential.proposals Confidential.emit Confidential.set_proposals].
    eapply lookup_insert_kept;
      [apply conf_kept_refl | exact Hbind | | exact Hn].
    unfold conf_kept. auto.
Qed.

Lemma conf_run_cons (ec : Env * Confidential.Call) (tr : list (Env * Confidential.Call))
    (s : Confidential.State) :
  Confidential.run (ec :: tr) s = Confidential.run tr (Confidential.step s ec).
Proof. reflexivity. Qed.

Lemma conf_step_extends (s : Confidential.State) (ec : Env * Confidential.Call) :
  conf_extends s (Confidential.step s ec).
Proof.
  unfold Confidential.step. destruct (Confidential.call ec.1 ec.2 s) eqn:Hc.
  - eapply conf_call_extends; eassumption.
  - apply conf_extends_refl.
Qed.

Lemma conf_run_extends (tr : list (Env * Confidential.Call)) :
  forall s : Confidential.State, conf_extends s (Confidential.run tr s).
Proof.
  induction tr as [| ec tr IH]; intros s.
  - apply conf_extends_refl.
  - rewrite conf_run_cons.
    eapply conf_extends_trans; [apply conf_step_extends | apply IH].
Qed.

(** ** The 64-bit invariants *)

Lemma FHE_sub_lt (a b : N) : FHE.sub a b < FHE.two64.
Proof.
  unfold FHE.sub.
  pose proof (Z.mod_pos_bound (Z.of_N a - Z.of_N b) (Z.of_N FHE.two64)) as H.
  assert (0 < Z.of_N FHE.two64)%Z by reflexivity. lia.
Qed.

Lemma conf_constructor_wf (env : Env) (members : list address) (q : uint256) :
  Confidential.wf (Confidential.constructor env members q).
Proof.
  unfold Confidential.constructor.
  assert (H : forall (l : list address) (s : Confidential.State),
             Confidential.wf s ->
             Confidential.wf
               (fold_left
                  (fun s m =>
                     Confidential.set_isMember s (<[m := true]> (Confidential.isMember s))
                       (Confidential.MemberAdded m)) l s)).
  { induction l as [| m l IH]; intros s Hs; [exact Hs |]. cbn [fold_left]. now apply IH. }
  apply H. reflexivity.
Qed.

Lemma conf_call_wf (env : Env) (c : Confidential.Call) (s s' : Confidential.State) :
  Confidential.wf s -> Confidential.call env c s = Ok s' -> Confidential.wf s'.
Proof.
  intros Hwf H. apply conf_call_Ok in H.
  destruct c; unfold_conf_call H; break_ok; subst;
    unfold Confidential.wf in *;
    cbn [fst Confidential._treasury Confidential.emit Confidential.set_proposals
         Confidential.set_treasury Confidential.set_voted Confidential.set_quorum
         Confidential.set_isMember];
    first [exact Hwf | apply FHE_add_lt | apply FHE_sub_lt].
Qed.

Lemma conf_run_wf (tr : list (Env * Confidential.Call)) :
  forall s : Confidential.State, Confidential.wf s -> Confidential.wf (Confidential.run tr s).
Proof.
  induction tr as [| ec tr IH]; intros s Hs; [exact Hs |].
  rewrite conf_run_cons. apply IH.
  unfold Confidential.step. destruct (Confidential.call ec.1 ec.2 s) eqn:Hc; [| exact Hs].
  eapply conf_call_wf; eassumption.
Qed.

Lemma simple_call_wf (env : Env) (c : Simple.Call) (s s' : Simple.State) :
  Simple.wf s -> Simple.call env c s = Ok s' -> Simple.wf s'.
Proof.
  intros Hwf H. apply simple_call_Ok in H. destruct c; cbn [Simple.dispatch] in H;
    unfold Simple.deposit, Simple.withdraw, Simple.createProposal, Simple.vote,
      Simple.finalizeProposal, Simple.keep, Simple.updateMinDeposit in H;
    break_ok; subst; unfold Simple.wf in *;
    cbn [fst Simple.proposals Simple.set_proposals Simple.set_deposits
         Simple.set_hasVoted Simple.set_minDepositToVote];
    try exact Hwf.
  - (* createProposal *)
    apply Forall_app. split; [exact Hwf |].
    constructor; [| constructor]. split; reflexivity.
  - (* vote *)
    apply Forall_insert; [exact Hwf |]. split; apply FHE_add_lt.
  - (* finalizeProposal *)
    apply array_get_Ok in Hbind.
    apply Forall_insert; [exact Hwf |].
    rewrite Forall_lookup in Hwf. exact (Hwf _ _ Hbind).
Qed.

Lemma simple_run_wf (tr : list (Env * Simple.Call)) :
  forall s : Simple.State, Simple.wf s -> Simple.wf (Simple.run tr s).
Proof.
  induction tr as [| ec tr IH]; intros s Hs; [exact Hs |].
  rewrite simple_run_cons. apply IH.
  unfold Simple.step. destruct (Simple.call ec.1 ec.2 s) eqn:Hc; [| exact Hs].
  eapply simple_call_wf; eassumption.
Qed.

Lemma simple_constructor_wf (env : Env) (m : uint256) :
  Simple.wf (Simple.constructor env m).
Proof. constructor. Qed.

(** ** Confidential variant: how a call can fail *)

(** Case analysis on the guards of a call that reverted. *)
Ltac break_err :=
  repeat match goal with
    | H : Ok _ = Err _ |- _ => discriminate H
    | H : Err _ = Err _ |- _ => injection H as H
    | H : bind ?m _ = Err _ |- _ =>
        let E := fresh "Hbind" in destruct m as [?val | ?rev] eqn:E; cbn [bind] in H
    | H : (if ?b then _ else _) = Err _ |- _ =>
        let E := fresh "Hif" in destruct b eqn:E
    end.

Lemma fromExternal_Err {E : Type} (ext : FHE.externalEuint64) (pf : bool) (r : Revert E) :
  FHE.fromExternal ext pf = Err r -> r = InputProofRejected /\ pf = false.
Proof. unfold FHE.fromExternal. destruct pf; [discriminate |]. now intros [= <-]. Qed.

Lemma array_get_Err {E A : Type} (arr : list A) (i : uint256) (r : Revert E) :
  @array_get E A arr i = Err r ->
  r = Panic IndexOutOfBounds /\ N.of_nat (length arr) <= i.
Proof.
  unfold array_get. destruct (arr !! N.to_nat i) eqn:Hl; [discriminate |].
  intros [= <-]. split; [reflexivity |]. apply lookup_ge_None in Hl. lia.
Qed.

Lemma checked_add_Err {E : Type} (a b : uint256) (r : Revert E) :
  checked_add a b = Err r -> r = Panic ArithmeticOverflow /\ uint256_max < a + b.
Proof.
  unfold checked_add. destruct (N.leb_spec (a + b) uint256_max); [discriminate |].
  now intros [= <-].
Qed.

Lemma checked_sub_Err {E : Type} (a b : uint256) (r : Revert E) :
  checked_sub a b = Err r -> r = Panic ArithmeticOverflow /\ a < b.
Proof.
  unfold checked_sub. destruct (N.leb_spec b a); [discriminate |].
  now intros [= <-].
Qed.

(** The five functions that take a proposal id index the array without a
    range check of their own. *)
Lemma conf_out_of_range (env : Env) (s : Confidential.State) (i : uint256) :
  Confidential.proposals_length s <= i ->
  Confidential.getExecutedAmount i s = Err (Panic IndexOutOfBounds) /\
  Confidential.getRequestedAmount i s = Err (Panic IndexOutOfBounds) /\
  (Confidential.isMember_of s (msg_sender env) = true ->
     Confidential.voteYes env i s = Err (Panic IndexOutOfBounds) /\
     Confidential.execute env i s = Err (Panic IndexOutOfBounds)) /\
  (msg_sender env = Confidential.owner s ->
     Confidential.cancelProposal env i s = Err (Panic IndexOutOfBounds)).
Proof.
  intros Hlen. unfold Confidential.proposals_length in Hlen.
  unfold Confidential.getExecutedAmount, Confidential.getRequestedAmount,
    Confidential.voteYes, Confidential.execute, Confidential.cancelProposal,
    Confidential.onlyMember, Confidential.onlyOwner.
  rewrite (array_get_out_of_range _ _ Hlen). cbn [bind].
  split; [reflexivity |]. split; [reflexivity |]. split.
  - intros Hm. now rewrite Hm.
  - intros Ho. rewrite Ho, N.eqb_refl. reflexivity.
Qed.

(** C6 as stated fails: on the freshly deployed contract, which has no
    proposal, the accessor and the vote called with an id revert with the
    generic array-index panic, which is not one of the named errors. *)
Lemma C6_out_of_range_id_counterexample :
  let s := Confidential.constructor (Scenario.at_time Scenario.deployer 100)
             [Scenario.alice; Scenario.bob] 2 in
  Confidential.call (Scenario.at_time Scenario.alice 200)
    (Confidential.CallGetExecutedAmount 0) s = Err (Panic IndexOutOfBounds) /\
  Confidential.call (Scenario.at_time Scenario.alice 200)
    (Confidential.CallVoteYes 5) s = Err (Panic IndexOutOfBounds) /\
  is_named (@Panic Confidential.Error IndexOutOfBounds) = false.
Proof. repeat split; reflexivity. Qed.

(** C6 (amended). A call of the Confidential-spend variant fails with one
    of the contract's named errors, or with one of the generic failures of
    the runtime: the array-index panic, only when it names a proposal id
    that is out of range; the arithmetic-overflow panic of a checked
    addition; the rejection of an input proof; the rejection of value sent
    to a function that is not payable.  In particular [getExecutedAmount] and
    [getRequestedAmount], [voteYes] and [execute] by a member, and
    [cancelProposal] by the owner all fail with the array-index panic on an
    id that is out of range. *)
Theorem C6_failures_of_confidential_calls :
  (forall (env : Env) (c : Confidential.Call) (s : Confidential.State)
          (r : Revert Confidential.Error),
     Confidential.call env c s = Err r ->
     is_named r = true \/
     (r = Panic IndexOutOfBounds /\
      exists i : uint256,
        Confidential.call_id c = Some i /\ Confidential.proposals_length s <= i) \/
     (r = Panic ArithmeticOverflow /\ conf_overflows env c s) \/
     (r = InputProofRejected /\ conf_call_proof c = Some false) \/
     (r = CallValueRejected /\ msg_value env <> 0)) /\
  (forall (env : Env) (s : Confidential.State) (i : uint256),
     Confidential.proposals_length s <= i ->
     Confidential.getExecutedAmount i s = Err (Panic IndexOutOfBounds) /\
     Confidential.getRequestedAmount i s = Err (Panic IndexOutOfBounds) /\
     (Confidential.isMember_of s (msg_sender env) = true ->
        Confidential.voteYes env i s = Err (Panic IndexOutOfBounds) /\
        Confidential.execute env i s = Err (Panic IndexOutOfBounds)) /\
     (msg_sender env = Confidential.owner s ->
        Confidential.cancelProposal env i s = Err (Panic IndexOutOfBounds))).
Proof.
  split; [| exact conf_out_of_range].
  intros env c s r H. unfold Confidential.call in H.
  destruct (N.eqb_spec (msg_value env) 0) as [_ | Hvalue]; cbn [negb] in H.
  2: { injection H as <-. do 4 right. split; [reflexivity | exact Hvalue]. }
  destruct c; unfold_conf_call H; break_err; subst;
    try (left; reflexivity); try discriminate.
  all: try match goal with
         | Hx : FHE.fromExternal _ _ = Err _ |- _ =>
             apply fromExternal_Err in Hx as [-> ->];
             right; right; right; left; split; reflexivity
         | Hx : array_get _ _ = Err _ |- _ =>
             apply array_get_Err in Hx as [-> Hlen];
             right; left; split; [reflexivity |];
             eexists; split; [reflexivity | exact Hlen]
         end.
  - (* createProposal: the id of the pushed proposal *)
    match goal with
    | Hx : checked_sub _ _ = Err _ |- _ => apply checked_sub_Err in Hx as [_ Hlt]
    end.
    exfalso. unfold Confidential.proposals_length in Hlt.
    cbn [Confidential.proposals Confidential.set_proposals] in Hlt.
    rewrite length_app in Hlt. cbn [length] in Hlt. lia.
  - (* createProposal: the deadline *)
    match goal with
    | Hx : checked_add _ _ = Err _ |- _ => apply checked_add_Err in Hx as [-> Hov]
    end.
    right; right; left. split; [reflexivity | exact Hov].
  - (* voteYes: the yes counter *)
    match goal with
    | Hx : checked_add _ _ = Err _, Hy : array_get _ _ = Ok _ |- _ =>
        apply checked_add_Err in Hx as [-> Hov]; apply array_get_Ok in Hy as Hp
    end.
    right; right; left. split; [reflexivity |].
    eexists. split; [exact Hp | exact Hov].
Qed.

Lemma C6_failures_of_confidential_calls_witness :
  let env := Scenario.at_time Scenario.alice 200 in
  let s := Scenario.conf_voted 20 in
  Confidential.getExecutedAmount 3 s = Err (Panic IndexOutOfBounds) /\
  Confidential.getRequestedAmount 3 s = Err (Panic IndexOutOfBounds) /\
  (Confidential.isMember_of s (msg_sender env) = true ->
     Confidential.voteYes env 3 s = Err (Panic IndexOutOfBounds) /\
     Confidential.execute env 3 s = Err (Panic IndexOutOfBounds)) /\
  (msg_sender env = Confidential.owner s ->
     Confidential.cancelProposal env 3 s = Err (Panic IndexOutOfBounds)).
Proof.
  intros env s. apply (proj2 C6_failures_of_confidential_calls env s 3).
  vm_compute. discriminate.
Defined.

(** ** After the flag is set *)

Lemma finalizeProposal_Ok (env : Env) (i : uint256) (s s' : Simple.State) :
  Simple.finalizeProposal env i s = Ok s' ->
  exists p : Simple.Proposal,
    Simple.proposals s !! N.to_nat i = Some p /\
    Simple.deadline p < block_timestamp env /\
    Simple.proposals s' !! N.to_nat i = Some (Simple.set_finalized p true).
Proof.
  intros H. unfold Simple.finalizeProposal in H. break_ok. subst s'.
  apply array_get_Ok in Hbind. exists val.
  split; [exact Hbind |]. split; [now apply N.leb_gt |].
  cbn [Simple.proposals Simple.set_proposals].
  apply list_lookup_insert_eq. now apply lookup_lt_Some in Hbind.
Qed.

Lemma vote_Ok (env : Env) (i : uint256) (ev : FHE.externalEuint64) (pf : bool)
    (s s' : Simple.State) :
  Simple.vote env i ev pf s = Ok s' ->
  Simple.hasVoted_of s i (msg_sender env) = false /\
  Simple.hasVoted_of s' i (msg_sender env) = true /\
  exists p p' : Simple.Proposal,
    Simple.proposals s !! N.to_nat i = Some p /\
    Simple.proposals s' !! N.to_nat i = Some p' /\
    Simple.deadline p' = Simple.deadline p.
Proof.
  intros H. unfold Simple.vote in H. break_ok. subst s'.
  apply array_get_Ok in Hbind.
  split; [first [reflexivity | assumption] |]. split.
  { unfold Simple.hasVoted_of. cbn [Simple.hasVoted Simple.set_hasVoted].
    apply mapping_get_insert_eq. }
  exists val. eexists. split; [exact Hbind |]. split.
  - cbn [Simple.proposals Simple.set_hasVoted Simple.set_proposals].
    apply list_lookup_insert_eq. now apply lookup_lt_Some in Hbind.
  - reflexivity.
Qed.

Lemma voteYes_Ok (env : Env) (i : uint256) (s s' : Confidential.State) :
  Confidential.voteYes env i s = Ok s' ->
  Confidential.voted_of s i (msg_sender env) = false /\
  Confidential.voted_of s' i (msg_sender env) = true /\
  exists p p' : Confidential.Proposal,
    Confidential.proposals s !! N.to_nat i = Some p /\
    Confidential.proposals s' !! N.to_nat i = Some p' /\
    Confidential.deadline p' = Confidential.deadline p.
Proof.
  intros H. unfold Confidential.voteYes, Confidential.onlyMember in H. break_ok. subst s'.
  apply array_get_Ok in Hbind.
  split; [first [reflexivity | assumption] |]. split.
  { unfold Confidential.voted_of.
    cbn [Confidential.voted Confidential.emit Confidential.set_proposals
         Confidential.set_voted].
    apply mapping_get_insert_eq. }
  exists val. eexists. split; [exact Hbind |]. split.
  - cbn [Confidential.proposals Confidential.emit Confidential.set_proposals
         Confidential.set_voted].
    apply list_lookup_insert_eq. now apply lookup_lt_Some in Hbind.
  - reflexivity.
Qed.

(** [voteYes] on an existing proposal: the guards in their order.  The
    [executed] flag is not among them. *)
Lemma voteYes_existing (env : Env) (s : Confidential.State) (i : uint256)
    (p : Confidential.Proposal) :
  Confidential.proposals s !! N.to_nat i = Some p ->
  Confidential.voteYes env i s =
    if negb (Confidential.isMember_of s (msg_sender env))
    then Err (Custom Confidential.NotMember) else
    if Confidential.deadline p <? block_timestamp env
    then Err (Custom Confidential.PastDeadline) else
    if Confidential.voted_of s i (msg_sender env)
    then Err (Custom Confidential.AlreadyVoted) else
    let! n := checked_add (Confidential.yesVotes p) 1 in
    Ok (Confidential.emit
          (Confidential.set_proposals
             (Confidential.set_voted s (<[(i, msg_sender env) := true]> (Confidential.voted s)))
             (<[N.to_nat i := Confidential.set_yesVotes p n]> (Confidential.proposals s)))
          (Confidential.Voted i (msg_sender env))).
Proof.
  intros Hp. unfold Confidential.voteYes, Confidential.onlyMember.
  now rewrite (array_get_Some _ _ _ Hp).
Qed.

(** C2 as stated fails for [voteYes]: in the Confidential-spend variant a
    proposal executed before its deadline (here at time 150, deadline
    86520) still takes the yes vote of a member who has not voted. *)
Lemma C2_voteYes_after_execute_counterexample :
  let s := Scenario.conf_executed_early in
  Confidential.executed <$> Confidential.proposals s !! 0%nat = Some true /\
  Confidential.yesVotes <$> Confidential.proposals s !! 0%nat = Some 1 /\
  is_ok (Confidential.voteYes (Scenario.at_time Scenario.bob 160) 0 s) = true /\
  Confidential.yesVotes <$>
    Confidential.proposals
      (Confidential.step s (Scenario.at_time Scenario.bob 160, Confidential.CallVoteYes 0))
      !! 0%nat = Some 2.
Proof. repeat split; reflexivity. Qed.

(** C2 (amended). Once [finalized] is set in the Simple variant, after any
    further calls every [finalizeProposal] on that proposal fails with
    [AlreadyFinalized] and every [vote] on it, at a time not before the
    finalization, fails.  Once [executed] is set in the Confidential-spend
    variant, after any further calls every [execute] and every
    [cancelProposal] on that proposal fails ([AlreadyExecuted] once the
    access check has passed).  [voteYes] does not read the [executed] flag:
    on an executed proposal it still succeeds for a member who has not
    voted, up to the deadline. *)
Theorem C2_after_the_flag_is_set :
  (forall (env0 : Env) (s s1 : Simple.State) (i : uint256)
          (tr : list (Env * Simple.Call)) (env : Env)
          (ev : FHE.externalEuint64) (pf : bool),
     Simple.finalizeProposal env0 i s = Ok s1 ->
     block_timestamp env0 <= block_timestamp env ->
     let s2 := Simple.run tr s1 in
     Simple.finalized <$> Simple.proposals s2 !! N.to_nat i = Some true /\
     Simple.finalizeProposal env i s2 = Err (Custom Simple.AlreadyFinalized) /\
     is_ok (Simple.vote env i ev pf s2) = false) /\
  (forall (s : Confidential.State) (i : uint256) (p : Confidential.Proposal)
          (tr : list (Env * Confidential.Call)) (env : Env),
     Confidential.proposals s !! N.to_nat i = Some p ->
     Confidential.executed p = true ->
     let s2 := Confidential.run tr s in
     Confidential.executed <$> Confidential.proposals s2 !! N.to_nat i = Some true /\
     Confidential.execute env i s2 =
       Err (Custom (if Confidential.isMember_of s2 (msg_sender env)
                    then Confidential.AlreadyExecuted else Confidential.NotMember)) /\
     Confidential.cancelProposal env i s2 =
       Err (Custom (if msg_sender env =? Confidential.owner s2
                    then Confidential.AlreadyExecuted else Confidential.NotOwner))) /\
  (forall (env : Env) (s : Confidential.State) (i : uint256) (p : Confidential.Proposal),
     Confidential.proposals s !! N.to_nat i = Some p ->
     Confidential.executed p = true ->
     Confidential.isMember_of s (msg_sender env) = true ->
     block_timestamp env <= Confidential.deadline p ->
     Confidential.voted_of s i (msg_sender env) = false ->
     Confidential.yesVotes p < uint256_max ->
     is_ok (Confidential.voteYes env i s) = true).
Proof.
  split; [| split].
  - intros env0 s s1 i tr env ev pf Hfin Ht s2.
    apply finalizeProposal_Ok in Hfin as (p & _ & Hdl & Hp1).
    destruct (simple_run_extends tr s1) as (_ & Hprops & _).
    destruct (Hprops _ _ Hp1) as (p2 & Hp2 & Hdl2 & _ & Hfin2).
    fold s2 in Hp2. specialize (Hfin2 eq_refl).
    cbn [Simple.deadline Simple.set_finalized] in Hdl2.
    split; [rewrite Hp2; cbn; now rewrite Hfin2 |].
    split.
    + rewrite (finalizeProposal_existing env s2 i p2 Hp2). now rewrite Hfin2.
    + rewrite (vote_existing env s2 i ev pf p2 Hp2).
      destruct (_ <? Simple.minDepositToVote s2); [reflexivity |].
      destruct (Simple.hasVoted_of s2 i (msg_sender env)); [reflexivity |].
      assert (Hlate : (Simple.deadline p2 <? block_timestamp env) = true)
        by (apply N.ltb_lt; lia).
      now rewrite Hlate.
  - intros s i p tr env Hp Hex s2.
    destruct (conf_run_extends tr s) as (_ & Hprops & _).
    destruct (Hprops _ _ Hp) as (p2 & Hp2 & _ & Hex2).
    fold s2 in Hp2. specialize (Hex2 Hex).
    split; [rewrite Hp2; cbn; now rewrite Hex2 |].
    unfold Confidential.execute, Confidential.cancelProposal,
      Confidential.onlyMember, Confidential.onlyOwner.
    rewrite (array_get_Some _ _ _ Hp2). cbn [bind]. rewrite Hex2.
    split.
    + now destruct (Confidential.isMember_of s2 (msg_sender env)).
    + now destruct (msg_sender env =? Confidential.owner s2).
  - intros env s i p Hp _ Hm Ht Hv Hy.
    rewrite (voteYes_existing env s i p Hp), Hm, Hv. cbn [negb].
    apply N.ltb_ge in Ht. rewrite Ht.
    unfold checked_add.
    assert (Hfit : (Confidential.yesVotes p + 1 <=? uint256_max) = true)
      by (apply N.leb_le; lia).
    now rewrite Hfit.
Qed.

Lemma C2_after_the_flag_is_set_witness :
  (let env0 := Scenario.at_time Scenario.alice 700000 in
   let s1 := Simple.step Scenario.simple_created (env0, Simple.CallFinalizeProposal 0) in
   let env := Scenario.at_time Scenario.bob 700100 in
   let s2 := Simple.run [ (Scenario.paying Scenario.bob 700050 5, Simple.CallDeposit) ] s1 in
   Simple.finalized <$> Simple.proposals s2 !! N.to_nat 0 = Some true /\
   Simple.finalizeProposal env 0 s2 = Err (Custom Simple.AlreadyFinalized) /\
   is_ok (Simple.vote env 0 1 true s2) = false) /\
  (let env := Scenario.at_time Scenario.alice 200 in
   let s2 := Confidential.run
               [ (Scenario.at_time Scenario.bob 160, Confidential.CallVoteYes 0) ]
               Scenario.conf_executed_early in
   Confidential.executed <$> Confidential.proposals s2 !! N.to_nat 0 = Some true /\
   Confidential.execute env 0 s2 =
     Err (Custom (if Confidential.isMember_of s2 (msg_sender env)
                  then Confidential.AlreadyExecuted else Confidential.NotMember)) /\
   Confidential.cancelProposal env 0 s2 =
     Err (Custom (if msg_sender env =? Confidential.owner s2
                  then Confidential.AlreadyExecuted else Confidential.NotOwner))) /\
  is_ok (Confidential.voteYes (Scenario.at_time Scenario.bob 160) 0
           Scenario.conf_executed_early) = true.
Proof.
  split; [| split].
  - apply (proj1 C2_after_the_flag_is_set
             (Scenario.at_time Scenario.alice 700000) Scenario.simple_created).
    + reflexivity.
    + vm_compute. discriminate.
  - apply (proj1 (proj2 C2_after_the_flag_is_set) Scenario.conf_executed_early 0
             {| Confidential.recipient := Scenario.payee;
                Confidential.encAmount := 20;
                Confidential.yesVotes := 1;
                Confidential.deadline := 86520;
                Confidential.executed := true;
                Confidential.executedEnc := 20 |}).
    + reflexivity.
    + reflexivity.
  - apply (proj2 (proj2 C2_after_the_flag_is_set)
             (Scenario.at_time Scenario.bob 160) Scenario.conf_executed_early 0
             {| Confidential.recipient := Scenario.payee;
                Confidential.encAmount := 20;
                Confidential.yesVotes := 1;
                Confidential.deadline := 86520;
                Confidential.executed := true;
                Confidential.executedEnc := 20 |}).
    + reflexivity.
    + reflexivity.
    + reflexivity.
    + vm_compute. discriminate.
    + reflexivity.
    + reflexivity.
Defined.

(** ** One vote per identity and proposal *)

Lemma simple_votes_cast_bound (i : uint256) (a : address)
    (tr : list (Env * Simple.Call)) :
  forall s : Simple.State,
    (Simple.votes_cast i a tr s <= if Simple.hasVoted_of s i a then 0 else 1)%nat.
Proof.
  induction tr as [| [env c] tr IH]; intros s.
  - cbn. lia.
  - cbn [Simple.votes_cast]. specialize (IH (Simple.step s (env, c))).
    destruct (simple_step_extends s (env, c)) as (_ & _ & Hmono).
    specialize (Hmono i a).
    assert (Hrest : (Simple.votes_cast i a tr (Simple.step s (env, c))
                     <= if Simple.hasVoted_of s i a then 0 else 1)%nat).
    { destruct (Simple.hasVoted_of s i a); [rewrite Hmono in IH by reflexivity |];
        [exact IH | destruct (Simple.hasVoted_of _ i a); lia]. }
    destruct c; try exact Hrest.
    destruct (is_ok _ && (proposalId =? i) && (msg_sender env =? a)) eqn:Hhead;
      [| exact Hrest].
    apply andb_prop in Hhead as [Hhead Ha]. apply andb_prop in Hhead as [Hok Hi].
    apply N.eqb_eq in Ha, Hi. subst proposalId a.
    unfold Simple.step in *. cbn [fst snd] in *.
    destruct (Simple.call env (Simple.CallVote i encryptedVote inputProof) s)
      as [s1 | r] eqn:Hc; [| discriminate].
    apply simple_call_Ok in Hc. cbn [Simple.dispatch] in Hc.
    apply vote_Ok in Hc as (Hbefore & Hafter & _).
    rewrite Hbefore. rewrite Hafter in IH. lia.
Qed.

Lemma conf_votes_cast_bound (i : uint256) (a : address)
    (tr : list (Env * Confidential.Call)) :
  forall s : Confidential.State,
    (Confidential.votes_cast i a tr s
     <= if Confidential.voted_of s i a then 0 else 1)%nat.
Proof.
  induction tr as [| [env c] tr IH]; intros s.
  - cbn. lia.
  - cbn [Confidential.votes_cast]. specialize (IH (Confidential.step s (env, c))).
    destruct (conf_step_extends s (env, c)) as (_ & _ & Hmono).
    specialize (Hmono i a).
    assert (Hrest : (Confidential.votes_cast i a tr (Confidential.step s (env, c))
                     <= if Confidential.voted_of s i a then 0 else 1)%nat).
    { destruct (Confidential.voted_of s i a); [rewrite Hmono in IH by reflexivity |];
        [exact IH | destruct (Confidential.voted_of _ i a); lia]. }
    destruct c; try exact Hrest.
    destruct (is_ok _ && (id =? i) && (msg_sender env =? a)) eqn:Hhead;
      [| exact Hrest].
    apply andb_prop in Hhead as [Hhead Ha]. apply andb_prop in Hhead as [Hok Hi].
    apply N.eqb_eq in Ha, Hi. subst id a.
    unfold Confidential.step in *. cbn [fst snd] in *.
    destruct (Confidential.call env (Confidential.CallVoteYes i) s)
      as [s1 | r] eqn:Hc; [| discriminate].
    apply conf_call_Ok in Hc. cbn [Confidential.dispatch] in Hc.
    apply voteYes_Ok in Hc as (Hbefore & Hafter & _).
    rewrite Hbefore. rewrite Hafter in IH. lia.
Qed.

(** C5 as stated fails on the error reported: the vote record stays set,
    but a later attempt that does not pass an earlier guard reports that
    guard's error and not [AlreadyVoted].  In the Simple variant alice, who
    voted and then withdrew her deposit, gets [InsufficientDeposit]; in the
    Confidential-spend variant alice, voting again after the deadline, gets
    [PastDeadline]. *)
Lemma C5_later_vote_error_counterexample :
  Simple.hasVoted_of Scenario.simple_voted_withdrawn 0 Scenario.alice = true /\
  Simple.vote (Scenario.at_time Scenario.alice 220) 0 1 true Scenario.simple_voted_withdrawn
    = Err (Custom Simple.InsufficientDeposit) /\
  Confidential.voted_of Scenario.conf_one_vote 0 Scenario.alice = true /\
  Confidential.voteYes (Scenario.at_time Scenario.alice 90000) 0 Scenario.conf_one_vote
    = Err (Custom Confidential.PastDeadline).
Proof. repeat split; reflexivity. Qed.

(** C5 (amended). In both variants, after a successful vote of an identity
    on a proposal the vote record of that pair is set and no sequence of
    calls clears it, and every later vote attempt of that identity on that
    proposal fails: with [AlreadyVoted], unless a guard that the function
    checks earlier rejects the call first -- [InsufficientDeposit] in the
    Simple variant; [NotMember], then [PastDeadline], in the
    Confidential-spend variant.  Hence along every sequence of calls from
    deployment at most one vote of an identity on a proposal succeeds. *)
Theorem C5_one_vote_per_identity :
  (forall (env : Env) (s s1 : Simple.State) (i : uint256)
          (ev : FHE.externalEuint64) (pf : bool)
          (tr : list (Env * Simple.Call))
          (env' : Env) (ev' : FHE.externalEuint64) (pf' : bool),
     Simple.vote env i ev pf s = Ok s1 ->
     msg_sender env' = msg_sender env ->
     let s2 := Simple.run tr s1 in
     Simple.hasVoted_of s2 i (msg_sender env) = true /\
     Simple.vote env' i ev' pf' s2 =
       Err (Custom
              (if Simple.deposits_of s2 (msg_sender env') <? Simple.minDepositToVote s2
               then Simple.InsufficientDeposit else Simple.AlreadyVoted))) /\
  (forall (env : Env) (s s1 : Confidential.State) (i : uint256)
          (p : Confidential.Proposal)
          (tr : list (Env * Confidential.Call)) (env' : Env),
     Confidential.proposals s !! N.to_nat i = Some p ->
     Confidential.voteYes env i s = Ok s1 ->
     msg_sender env' = msg_sender env ->
     let s2 := Confidential.run tr s1 in
     Confidential.voted_of s2 i (msg_sender env) = true /\
     Confidential.voteYes env' i s2 =
       Err (Custom
              (if negb (Confidential.isMember_of s2 (msg_sender env'))
               then Confidential.NotMember
               else if Confidential.deadline p <? block_timestamp env'
                    then Confidential.PastDeadline
                    else Confidential.AlreadyVoted))) /\
  (forall (env0 : Env) (minDeposit : uint256) (tr : list (Env * Simple.Call))
          (i : uint256) (a : address),
     (Simple.votes_cast i a tr (Simple.constructor env0 minDeposit) <= 1)%nat) /\
  (forall (env0 : Env) (members : list address) (minQuorum : uint256)
          (tr : list (Env * Confidential.Call)) (i : uint256) (a : address),
     (Confidential.votes_cast i a tr (Confidential.constructor env0 members minQuorum)
      <= 1)%nat).
Proof.
  split; [| split; [| split]].
  4: { intros env0 members minQuorum tr i a.
       pose proof (conf_votes_cast_bound i a tr
                     (Confidential.constructor env0 members minQuorum)) as H.
       destruct (Confidential.voted_of _ i a); lia. }
  3: { intros env0 minDeposit tr i a.
       pose proof (simple_votes_cast_bound i a tr (Simple.constructor env0 minDeposit)) as H.
       destruct (Simple.hasVoted_of _ i a); lia. }
  - intros env s s1 i ev pf tr env' ev' pf' Hvote Hsender s2.
    apply vote_Ok in Hvote as (_ & Hv1 & p & p1 & _ & Hp1 & _).
    destruct (simple_run_extends tr s1) as (_ & Hprops & Hvoted).
    destruct (Hprops _ _ Hp1) as (p2 & Hp2 & _).
    apply Hvoted in Hv1. fold s2 in Hp2, Hv1.
    split; [exact Hv1 |].
    rewrite (vote_existing env' s2 i ev' pf' p2 Hp2), Hsender, Hv1.
    now destruct (_ <? _).
  - intros env s s1 i p tr env' Hp Hvote Hsender s2.
    apply voteYes_Ok in Hvote as (_ & Hv1 & p0 & p1 & Hp0 & Hp1 & Hdl1).
    assert (p0 = p) by congruence. subst p0.
    destruct (conf_run_extends tr s1) as (_ & Hprops & Hvoted).
    destruct (Hprops _ _ Hp1) as (p2 & Hp2 & Hdl2 & _).
    apply Hvoted in Hv1. fold s2 in Hp2, Hv1.
    split; [exact Hv1 |].
    rewrite (voteYes_existing env' s2 i p2 Hp2), Hsender, Hv1, Hdl2, Hdl1.
    destruct (negb _); [reflexivity |]. now destruct (_ <? _).
Qed.

Lemma C5_one_vote_per_identity_witness :
  (let env := Scenario.at_time Scenario.alice 200 in
   let s1 := Simple.step Scenario.simple_created (env, Simple.CallVote 0 1 true) in
   let env' := Scenario.at_time Scenario.alice 300 in
   let s2 := Simple.run [ (Scenario.at_time Scenario.alice 210, Simple.CallWithdraw 95) ] s1 in
   Simple.hasVoted_of s2 0 (msg_sender env) = true /\
   Simple.vote env' 0 0 true s2 =
     Err (Custom
            (if Simple.deposits_of s2 (msg_sender env') <? Simple.minDepositToVote s2
             then Simple.InsufficientDeposit else Simple.AlreadyVoted))) /\
  (let env := Scenario.at_time Scenario.alice 130 in
   let s1 := Confidential.step (Scenario.conf_created 20) (env, Confidential.CallVoteYes 0) in
   let env' := Scenario.at_time Scenario.alice 140 in
   let s2 := Confidential.run
               [ (Scenario.at_time Scenario.bob 135, Confidential.CallVoteYes 0) ] s1 in
   Confidential.voted_of s2 0 (msg_sender env) = true /\
   Confidential.voteYes env' 0 s2 =
     Err (Custom
            (if negb (Confidential.isMember_of s2 (msg_sender env'))
             then Confidential.NotMember
             else if 86520 <? block_timestamp env'
                  then Confidential.PastDeadline
                  else Confidential.AlreadyVoted))).
Proof.
  split.
  - apply (proj1 C5_one_vote_per_identity
             (Scenario.at_time Scenario.alice 200) Scenario.simple_created _ 0 1 true).
    + reflexivity.
    + reflexivity.
  - apply (proj1 (proj2 C5_one_vote_per_identity)
             (Scenario.at_time Scenario.alice 130) (Scenario.conf_created 20) _ 0
             {| Confidential.recipient := Scenario.payee;
                Confidential.encAmount := 20;
                Confidential.yesVotes := 0;
                Confidential.deadline := 86520;
                Confidential.executed := false;
                Confidential.executedEnc := 0 |}).
    + reflexivity.
    + reflexivity.
    + reflexivity.
Defined.

(** ** Thresholds are read when the call is made *)

Lemma updateQuorum_owner (env : Env) (q : uint256) (s : Confidential.State) :
  msg_sender env = Confidential.owner s ->
  Confidential.updateQuorum env q s =
    Ok (Confidential.set_quorum
          (Confidential.emit s (Confidential.QuorumUpdated (Confidential.quorum s) q)) q).
Proof.
  intros Ho. unfold Confidential.updateQuorum, Confidential.onlyOwner.
  now rewrite Ho, N.eqb_refl.
Qed.

Lemma updateMinDeposit_owner (env : Env) (m : uint256) (s : Simple.State) :
  msg_sender env = Simple.owner s ->
  Simple.updateMinDeposit env m s = Ok (Simple.set_minDepositToVote s m).
Proof.
  intros Ho. unfold Simple.updateMinDeposit. now rewrite Ho, N.eqb_refl.
Qed.

(** C10. The owner of the Confidential-spend variant can rewrite the quorum
    at any time; [updateQuorum] touches neither the proposals nor the vote
    records, and [execute] compares the yes votes with the quorum stored
    when it is called: after [updateQuorum q] a not-yet-executed proposal
    is executable by a member exactly when its yes votes are at least [q].
    So a proposal that was not executable becomes executable without a new
    vote, and the other way round.  Likewise the owner of the Simple variant
    can rewrite the minimum deposit, and [vote] on an existing proposal
    compares the caller's deposit with the minimum stored when it is
    called. *)
Theorem C10_thresholds_read_at_call_time :
  (forall (envO envM : Env) (s : Confidential.State) (q i : uint256)
          (p : Confidential.Proposal),
     msg_sender envO = Confidential.owner s ->
     msg_value envO = 0 ->
     Confidential.isMember_of s (msg_sender envM) = true ->
     Confidential.proposals s !! N.to_nat i = Some p ->
     Confidential.executed p = false ->
     let s' := Confidential.step s (envO, Confidential.CallUpdateQuorum q) in
     Confidential.quorum s' = q /\
     Confidential.proposals s' = Confidential.proposals s /\
     Confidential.voted s' = Confidential.voted s /\
     is_ok (Confidential.execute envM i s') = (q <=? Confidential.yesVotes p)) /\
  (let s := Scenario.conf_one_vote in
   let s' := Confidential.step s
               (Scenario.at_time Scenario.deployer 90000, Confidential.CallUpdateQuorum 1) in
   Confidential.execute (Scenario.at_time Scenario.alice 90000) 0 s
     = Err (Custom Confidential.QuorumNotReached) /\
   Confidential.proposals s' = Confidential.proposals s /\
   is_ok (Confidential.execute (Scenario.at_time Scenario.alice 90001) 0 s') = true) /\
  (let s := Scenario.conf_voted 20 in
   let s' := Confidential.step s
               (Scenario.at_time Scenario.deployer 150, Confidential.CallUpdateQuorum 3) in
   is_ok (Confidential.execute (Scenario.at_time Scenario.alice 150) 0 s) = true /\
   Confidential.proposals s' = Confidential.proposals s /\
   Confidential.execute (Scenario.at_time Scenario.alice 151) 0 s'
     = Err (Custom Confidential.VotingOngoing)) /\
  (forall (envO envV : Env) (s : Simple.State) (m i : uint256)
          (ev : FHE.externalEuint64) (pf : bool) (p : Simple.Proposal),
     msg_sender envO = Simple.owner s ->
     msg_value envO = 0 ->
     Simple.proposals s !! N.to_nat i = Some p ->
     Simple.deposits_of s (msg_sender envV) < m ->
     let s' := Simple.step s (envO, Simple.CallUpdateMinDeposit m) in
     Simple.minDepositToVote s' = m /\
     Simple.deposits s' = Simple.deposits s /\
     Simple.vote envV i ev pf s' = Err (Custom Simple.InsufficientDeposit)) /\
  (let s := Scenario.simple_created in
   let s' := Simple.step s
               (Scenario.at_time Scenario.deployer 190, Simple.CallUpdateMinDeposit 11) in
   is_ok (Simple.vote (Scenario.at_time Scenario.bob 200) 0 1 true s) = true /\
   Simple.deposits s' = Simple.deposits s /\
   Simple.vote (Scenario.at_time Scenario.bob 200) 0 1 true s'
     = Err (Custom Simple.InsufficientDeposit)).
Proof.
  split; [| split; [| split; [| split]]].
  - intros envO envM s q i p Ho Hval Hm Hp Hx s'.
    assert (Hs' : s' = Confidential.set_quorum
                         (Confidential.emit s
                            (Confidential.QuorumUpdated (Confidential.quorum s) q)) q).
    { subst s'. unfold Confidential.step. cbn [fst snd].
      rewrite (conf_call_no_value _ _ _ Hval). cbn [Confidential.dispatch].
      now rewrite (updateQuorum_owner envO q s Ho). }
    rewrite Hs'. split; [reflexivity |]. split; [reflexivity |]. split; [reflexivity |].
    unfold Confidential.execute, Confidential.onlyMember, Confidential.isMember_of in *.
    cbn [Confidential.isMember Confidential.proposals Confidential.quorum
         Confidential.set_quorum Confidential.emit].
    rewrite Hm. cbn [negb]. rewrite (array_get_Some _ _ _ Hp). cbn [bind]. rewrite Hx.
    destruct (q <=? Confidential.yesVotes p); cbn [negb]; [reflexivity |].
    now destruct (_ <? _).
  - repeat split; reflexivity.
  - repeat split; reflexivity.
  - intros envO envV s m i ev pf p Ho Hval Hp Hlt s'.
    assert (Hs' : s' = Simple.set_minDepositToVote s m).
    { subst s'. unfold Simple.step. cbn [fst snd].
      rewrite (simple_call_no_value _ _ _ Hval). cbn [Simple.dispatch].
      now rewrite (updateMinDeposit_owner envO m s Ho). }
    rewrite Hs'. split; [reflexivity |]. split; [reflexivity |].
    rewrite (vote_existing envV (Simple.set_minDepositToVote s m) i ev pf p Hp).
    unfold Simple.deposits_of. cbn [Simple.deposits Simple.minDepositToVote
                                     Simple.set_minDepositToVote].
    apply N.ltb_lt in Hlt. unfold Simple.deposits_of in Hlt. now rewrite Hlt.
  - repeat split; reflexivity.
Qed.

Lemma C10_thresholds_read_at_call_time_witness :
  let s := Scenario.conf_one_vote in
  let s' := Confidential.step s
              (Scenario.at_time Scenario.deployer 90000, Confidential.CallUpdateQuorum 1) in
  Confidential.quorum s' = 1 /\
  Confidential.proposals s' = Confidential.proposals s /\
  Confidential.voted s' = Confidential.voted s /\
  is_ok (Confidential.execute (Scenario.at_time Scenario.alice 90001) 0 s') = (1 <=? 1).
Proof.
  intros s s'.
  apply (proj1 C10_thresholds_read_at_call_time
           (Scenario.at_time Scenario.deployer 90000)
           (Scenario.at_time Scenario.alice 90001) s 1 0
           {| Confidential.recipient := Scenario.payee;
              Confidential.encAmount := 20;
              Confidential.yesVotes := 1;
              Confidential.deadline := 86520;
              Confidential.executed := false;
              Confidential.executedEnc := 0 |}).
  - reflexivity.
  - reflexivity.
  - reflexivity.
  - reflexivity.
  - reflexivity.
Defined.

(** * Further properties *)

(** ** Simple variant: what a call keeps of the proposals *)

Lemma kept_upto_refl {A : Type} (R : A -> A -> Prop) (l : list A) :
  (forall p, R p p) -> kept_upto R l l.
Proof. intros Hrefl n p Hn. exists p. auto. Qed.

Lemma kept_upto_trans {A : Type} (R : A -> A -> Prop) (l1 l2 l3 : list A) :
  (forall p q r, R p q -> R q r -> R p r) ->
  kept_upto R l1 l2 -> kept_upto R l2 l3 -> kept_upto R l1 l3.
Proof.
  intros Htrans H12 H23 n p Hn.
  destruct (H12 n p Hn) as (p2 & Hn2 & Hr2).
  destruct (H23 n p2 Hn2) as (p3 & Hn3 & Hr3).
  exists p3. split; [exact Hn3 | eapply Htrans; eassumption].
Qed.

Section SimpleKept.

Variable R : Simple.Proposal -> Simple.Proposal -> Prop.
Hypothesis R_refl : forall p, R p p.
Hypothesis R_trans : forall p q r, R p q -> R q r -> R p r.
Hypothesis R_vote : forall p y n, R p (Simple.set_tallies p y n).
Hypothesis R_finalize :
  forall p, Simple.finalized p = false -> R p (Simple.set_finalized p true).

Lemma simple_call_kept_upto (env : Env) (c : Simple.Call) (s s' : Simple.State) :
  Simple.call env c s = Ok s' ->
  kept_upto R (Simple.proposals s) (Simple.proposals s').
Proof using R_refl R_vote R_finalize.
  intros H. apply simple_call_Ok in H. destruct c; cbn [Simple.dispatch] in H;
    unfold Simple.deposit, Simple.withdraw, Simple.createProposal, Simple.vote,
      Simple.finalizeProposal, Simple.keep, Simple.updateMinDeposit in H;
    break_ok; subst;
    cbn [fst Simple.proposals Simple.set_proposals Simple.set_deposits
         Simple.set_hasVoted Simple.set_minDepositToVote];
    try (now apply kept_upto_refl).
  - intros n p Hn. now apply lookup_app_kept.
  - apply array_get_Ok in Hbind. intros n p Hn.
    eapply lookup_insert_kept; [exact R_refl | exact Hbind | apply R_vote | exact Hn].
  - apply array_get_Ok in Hbind. intros n p Hn.
    eapply lookup_insert_kept; [exact R_refl | exact Hbind | now apply R_finalize | exact Hn].
Qed.

Lemma simple_run_kept_upto (tr : list (Env * Simple.Call)) :
  forall s : Simple.State,
    kept_upto R (Simple.proposals s) (Simple.proposals (Simple.run tr s)).
Proof using R_refl R_trans R_vote R_finalize.
  induction tr as [| ec tr IH]; intros s.
  - now apply kept_upto_refl.
  - rewrite simple_run_cons.
    eapply kept_upto_trans; [exact R_trans | | apply IH].
    unfold Simple.step. destruct (Simple.call ec.1 ec.2 s) eqn:Hc.
    + eapply simple_call_kept_upto; eassumption.
    + now apply kept_upto_refl.
Qed.

End SimpleKept.

(** ** Simple variant: proposals are numbered in the order of creation *)

Lemma simple_call_length (env : Env) (c : Simple.Call) (s s' : Simple.State) :
  Simple.call env c s = Ok s' ->
  length (Simple.proposals s') =
    (length (Simple.proposals s)
     + match c with Simple.CallCreateProposal _ _ _ _ _ => 1 | _ => 0 end)%nat.
Proof.
  intros H. apply simple_call_Ok in H. destruct c; cbn [Simple.dispatch] in H;
    unfold Simple.deposit, Simple.withdraw, Simple.createProposal, Simple.vote,
      Simple.finalizeProposal, Simple.keep, Simple.updateMinDeposit in H;
    break_ok; subst;
    cbn [fst Simple.proposals Simple.set_proposals Simple.set_deposits
         Simple.set_hasVoted Simple.set_minDepositToVote];
    rewrite ?length_app, ?length_insert; cbn [length]; lia.
Qed.

Lemma simple_call_ids_ok (env : Env) (c : Simple.Call) (s s' : Simple.State) :
  simple_ids_ok s -> Simple.call env c s = Ok s' -> simple_ids_ok s'.
Proof.
  intros Hids H. apply simple_call_Ok in H. destruct c; cbn [Simple.dispatch] in H;
    unfold Simple.deposit, Simple.withdraw, Simple.createProposal, Simple.vote,
      Simple.finalizeProposal, Simple.keep, Simple.updateMinDeposit in H;
    break_ok; subst; unfold simple_ids_ok in *;
    cbn [fst Simple.proposals Simple.set_proposals Simple.set_deposits
         Simple.set_hasVoted Simple.set_minDepositToVote];
    try exact Hids.
  - (* createProposal *)
    intros n p Hn. destruct (decide (n < length (Simple.proposals s))%nat) as [Hlt | Hge].
    + rewrite lookup_app_l in Hn by exact Hlt. now apply Hids.
    + rewrite lookup_app_r in Hn by lia.
      destruct (n - length (Simple.proposals s))%nat as [| k] eqn:Hk; [| discriminate].
      injection Hn as <-. cbn [Simple.id]. unfold Simple.proposals_length.
      f_equal. lia.
  - (* vote *)
    apply array_get_Ok in Hbind. intros n p Hn.
    destruct (decide (N.to_nat proposalId = n)) as [<- | Hne].
    + rewrite list_lookup_insert_eq in Hn by (now apply lookup_lt_Some in Hbind).
      injection Hn as <-. cbn [Simple.id Simple.set_tallies]. now apply Hids.
    + rewrite list_lookup_insert_ne in Hn by exact Hne. now apply Hids.
  - (* finalizeProposal *)
    apply array_get_Ok in Hbind. intros n p Hn.
    destruct (decide (N.to_nat proposalId = n)) as [<- | Hne].
    + rewrite list_lookup_insert_eq in Hn by (now apply lookup_lt_Some in Hbind).
      injection Hn as <-. cbn [Simple.id Simple.set_finalized]. now apply Hids.
    + rewrite list_lookup_insert_ne in Hn by exact Hne. now apply Hids.
Qed.

Lemma simple_run_count (tr : list (Env * Simple.Call)) :
  forall s : Simple.State,
    simple_ids_ok s ->
    simple_ids_ok (Simple.run tr s) /\
    length (Simple.proposals (Simple.run tr s))
    = (length (Simple.proposals s) + simple_created_count tr s)%nat.
Proof.
  induction tr as [| [env c] tr IH]; intros s Hids.
  - cbn. split; [exact Hids | lia].
  - rewrite simple_run_cons. cbn [simple_created_count].
    unfold Simple.step in *. cbn [fst snd] in *.
    destruct (Simple.call env c s) as [s1 | r] eqn:Hc.
    + destruct (IH s1 (simple_call_ids_ok env c s s1 Hids Hc)) as [Hids' Hlen].
      split; [exact Hids' |]. rewrite Hlen, (simple_call_length env c s s1 Hc).
      destruct c; cbn [is_ok]; lia.
    + destruct (IH s Hids) as [Hids' Hlen].
      split; [exact Hids' |]. rewrite Hlen. destruct c; cbn [is_ok]; lia.
Qed.

(** X1. Along every sequence of calls of the Simple variant from deployment,
    [getProposalCount] returns the number of [createProposal] calls that
    succeeded, and the proposal stored at an index carries that index as
    its [id]: proposals are numbered 0, 1, 2, ... in the order of creation
    and none is ever removed. *)
Theorem X1_simple_proposals_numbered :
  forall (env0 : Env) (minDeposit : uint256) (tr : list (Env * Simple.Call)),
    let s0 := Simple.constructor env0 minDeposit in
    let s := Simple.run tr s0 in
    Simple.getProposalCount s = Ok (N.of_nat (simple_created_count tr s0)) /\
    (forall (i : uint256) (p : Simple.Proposal),
       Simple.proposals s !! N.to_nat i = Some p -> Simple.id p = i) /\
    (forall i : uint256,
       is_ok (Simple.getProposal i s) = (i <? N.of_nat (simple_created_count tr s0))).
Proof.
  intros env0 minDeposit tr s0 s.
  assert (Hids0 : simple_ids_ok s0) by (intros n p Hn; discriminate).
  destruct (simple_run_count tr s0 Hids0) as [Hids Hlen].
  fold s in Hids, Hlen.
  change (length (Simple.proposals s0)) with 0%nat in Hlen. cbn [Nat.add] in Hlen.
  split; [| split].
  - unfold Simple.getProposalCount, Simple.proposals_length. now rewrite Hlen.
  - intros i p Hp. rewrite (Hids _ _ Hp). lia.
  - intros i. unfold Simple.getProposal, Simple.proposals_length. rewrite Hlen.
    destruct (N.leb_spec (N.of_nat (simple_created_count tr s0)) i) as [Hle | Hgt].
    + cbn [is_ok]. symmetry. apply N.ltb_ge. exact Hle.
    + assert (Hex : is_Some (Simple.proposals s !! N.to_nat i))
        by (apply lookup_lt_is_Some; lia).
      destruct Hex as [p Hp]. rewrite (array_get_Some _ _ _ Hp). cbn [bind is_ok].
      symmetry. now apply N.ltb_lt.
Qed.

(** ** Simple variant: [createProposal] and [getProposal] *)

Lemma uint256_max_30_days : 30 * one_day <= uint256_max.
Proof. vm_compute. discriminate. Qed.

Lemma simple_createProposal_Ok (env : Env) (t d : string) (a : uint256) (r : address)
    (v : uint256) (s s1 : Simple.State) (i : uint256) :
  Simple.createProposal env t d a r v s = Ok (s1, i) ->
  i = Simple.proposals_length s /\
  Simple.proposals s1 =
    Simple.proposals s ++
      [ {| Simple.id := i;
           Simple.title := t;
           Simple.description := d;
           Simple.proposer := msg_sender env;
           Simple.amount := a;
           Simple.recipient := r;
           Simple.deadline := block_timestamp env + v * one_day;
           Simple.encryptedYesVotes := 0;
           Simple.encryptedNoVotes := 0;
           Simple.finalized := false |} ].
Proof.
  intros H. unfold Simple.createProposal, checked_mul, checked_add in H.
  break_ok. subst. split; reflexivity.
Qed.

(** X2. What [createProposal] stored is what [getProposal] returns ever
    after: for the id it returned, after any further calls, [getProposal]
    yields that id, the title, description, amount and recipient passed in,
    the caller as proposer and the deadline [now + days * 1 days]; only the
    [finalized] flag may differ. *)
Theorem X2_simple_getProposal_returns_created :
  forall (env : Env) (t d : string) (a : uint256) (r : address) (v : uint256)
         (s s1 : Simple.State) (i : uint256) (tr : list (Env * Simple.Call)),
    Simple.createProposal env t d a r v s = Ok (s1, i) ->
    exists fin : bool,
      Simple.getProposal i (Simple.run tr s1)
      = Ok (i, t, d, msg_sender env, a, r, block_timestamp env + v * one_day, fin).
Proof.
  intros env t d a r v s s1 i tr H.
  apply simple_createProposal_Ok in H as [Hi Hps].
  assert (Hnew : exists p, Simple.proposals s1 !! N.to_nat i = Some p /\
                           simple_terms p =
                             (i, t, d, msg_sender env, a, r,
                              block_timestamp env + v * one_day)).
  { eexists. split.
    - rewrite Hps, lookup_app_r by (subst i; unfold Simple.proposals_length; lia).
      replace (N.to_nat i - _)%nat with 0%nat
        by (subst i; unfold Simple.proposals_length; lia).
      reflexivity.
    - reflexivity. }
  destruct Hnew as (p & Hp & Hterms).
  destruct (simple_run_kept_upto (fun p p' => simple_terms p' = simple_terms p)
              ltac:(reflexivity) ltac:(congruence)
              ltac:(reflexivity) ltac:(reflexivity) tr s1 _ _ Hp)
    as (p' & Hp' & Hk).
  exists (Simple.finalized p').
  unfold Simple.getProposal, Simple.proposals_length.
  rewrite (lookup_in_range _ _ _ Hp'), (array_get_Some _ _ _ Hp'). cbn [bind].
  rewrite Hterms in Hk. unfold simple_terms in Hk. now injection Hk as -> -> -> -> -> -> ->.
Qed.

Lemma X2_simple_getProposal_returns_created_witness :
  let env := Scenario.at_time Scenario.alice 200 in
  let s1 := Simple.step Scenario.simple_created
              (env, Simple.CallCreateProposal "audit" "pay the auditors" 5 Scenario.payee 1) in
  let tr := [ (Scenario.at_time Scenario.bob 300, Simple.CallVote 1 1 true);
              (Scenario.at_time Scenario.alice 90000, Simple.CallFinalizeProposal 1) ] in
  exists fin : bool,
    Simple.getProposal 1 (Simple.run tr s1)
    = Ok (1, "audit", "pay the auditors", msg_sender env, 5, Scenario.payee,
          block_timestamp env + 1 * one_day, fin).
Proof.
  intros env s1 tr.
  apply (X2_simple_getProposal_returns_created
           env "audit" "pay the auditors" 5 Scenario.payee 1 Scenario.simple_created s1 1 tr).
  reflexivity.
Defined.

(** X3. [createProposal] of the Simple variant succeeds exactly when the
    caller's deposit is at least the minimum, the amount and the recipient
    are not zero, the voting period is between 1 and 30 days, and the
    deadline [now + days * 1 days] fits in a [uint256]. *)
Theorem X3_simple_createProposal_accepts :
  forall (env : Env) (t d : string) (a : uint256) (r : address) (v : uint256)
         (s : Simple.State),
    is_ok (Simple.createProposal env t d a r v s) = true <->
    Simple.minDepositToVote s <= Simple.deposits_of s (msg_sender env) /\
    a <> 0 /\ r <> 0 /\ 1 <= v <= 30 /\
    block_timestamp env + v * one_day <= uint256_max.
Proof.
  intros env t d a r v s. unfold Simple.createProposal.
  destruct (N.ltb_spec (Simple.deposits_of s (msg_sender env)) (Simple.minDepositToVote s));
    [cbn; split; [discriminate | lia] |].
  destruct (N.eqb_spec a 0); [cbn; split; [discriminate | tauto] |].
  destruct (N.eqb_spec r 0); [cbn; split; [discriminate | tauto] |].
  destruct (N.eqb_spec v 0); [cbn; split; [discriminate | lia] |].
  destruct (N.ltb_spec 30 v); [cbn; split; [discriminate | lia] |].
  cbn [orb]. pose proof uint256_max_30_days as Hmax.
  unfold checked_mul.
  assert (Hfit : (v * one_day <=? uint256_max) = true).
  { apply N.leb_le. unfold one_day in *. nia. }
  rewrite Hfit. cbn [bind]. unfold checked_add.
  destruct (N.leb_spec (block_timestamp env + v * one_day) uint256_max); cbn.
  - split; [intros _ | reflexivity]. repeat split; try assumption; lia.
  - split; [discriminate | lia].
Qed.

(** ** Simple variant: the tallies *)

Lemma vote_increments (v : FHE.euint64) :
  FHE.select (FHE.eq v (FHE.asEuint64 1)) (FHE.asEuint64 1) (FHE.asEuint64 0)
  + FHE.select (FHE.eq v (FHE.asEuint64 0)) (FHE.asEuint64 1) (FHE.asEuint64 0) <= 1.
Proof.
  rewrite asEuint64_0, asEuint64_1. unfold FHE.select, FHE.eq.
  destruct (N.eqb_spec v 1), (N.eqb_spec v 0); subst; try discriminate; lia.
Qed.

Lemma FHE_add_le (a b : N) : FHE.add a b <= a + b.
Proof. unfold FHE.add. apply N.Div0.mod_le. Qed.

Lemma simple_call_tally (env : Env) (c : Simple.Call) (s s' : Simple.State) (i : uint256) :
  Simple.call env c s = Ok s' ->
  simple_tally s' i <=
    simple_tally s i
    + match c with
      | Simple.CallVote j _ _ => if N.eqb j i then 1 else 0
      | _ => 0
      end.
Proof.
  intros H. apply simple_call_Ok in H. destruct c; cbn [Simple.dispatch] in H;
    unfold Simple.deposit, Simple.withdraw, Simple.createProposal, Simple.vote,
      Simple.finalizeProposal, Simple.keep, Simple.updateMinDeposit in H;
    break_ok; subst; unfold simple_tally;
    cbn [fst Simple.proposals Simple.set_proposals Simple.set_deposits
         Simple.set_hasVoted Simple.set_minDepositToVote];
    try lia.
  - (* createProposal *)
    destruct (Simple.proposals s !! N.to_nat i) as [p |] eqn:Hp.
    + rewrite lookup_app_l by (now apply lookup_lt_Some in Hp). rewrite Hp. lia.
    + apply lookup_ge_None in Hp. rewrite lookup_app_r by exact Hp.
      destruct (N.to_nat i - length (Simple.proposals s))%nat as [| [| k]]; cbn;
        rewrite ?asEuint64_0; lia.
  - (* vote *)
    apply array_get_Ok in Hbind.
    destruct (N.eqb_spec proposalId i) as [-> | Hne].
    + rewrite list_lookup_insert_eq by (now apply lookup_lt_Some in Hbind).
      rewrite Hbind. cbn [Simple.encryptedYesVotes Simple.encryptedNoVotes Simple.set_tallies].
      pose proof (vote_increments val0) as Hinc.
      pose proof (FHE_add_le (Simple.encryptedYesVotes val)
                    (FHE.select (FHE.eq val0 (FHE.asEuint64 1))
                       (FHE.asEuint64 1) (FHE.asEuint64 0))).
      pose proof (FHE_add_le (Simple.encryptedNoVotes val)
                    (FHE.select (FHE.eq val0 (FHE.asEuint64 0))
                       (FHE.asEuint64 1) (FHE.asEuint64 0))).
      lia.
    + rewrite list_lookup_insert_ne by lia. lia.
  - (* finalizeProposal *)
    apply array_get_Ok in Hbind.
    destruct (decide (N.to_nat proposalId = N.to_nat i)) as [Heq | Hne].
    + rewrite <- Heq.
      rewrite list_lookup_insert_eq by (now apply lookup_lt_Some in Hbind).
      rewrite Hbind. cbn. lia.
    + rewrite list_lookup_insert_ne by exact Hne. lia.
Qed.

Lemma simple_run_tally (i : uint256) (tr : list (Env * Simple.Call)) :
  forall s : Simple.State,
    simple_tally (Simple.run tr s) i <= simple_tally s i + N.of_nat (simple_votes_on i tr s).
Proof.
  induction tr as [| [env c] tr IH]; intros s.
  - cbn. lia.
  - rewrite simple_run_cons. cbn [simple_votes_on].
    specialize (IH (Simple.step s (env, c))).
    unfold Simple.step in *. cbn [fst snd] in *.
    destruct (Simple.call env c s) as [s1 | r] eqn:Hc.
    + pose proof (simple_call_tally env c s s1 i Hc) as Hstep.
      destruct c; cbn [is_ok andb] in *; try lia.
      destruct (proposalId =? i); lia.
    + destruct c; cbn [is_ok andb]; lia.
Qed.

(** X4. Along every sequence of calls of the Simple variant from deployment,
    the yes and no tallies of a proposal, read on plaintexts, add up to at
    most the number of [vote] calls on that proposal that succeeded: no
    call but a successful [vote] moves a tally, and one vote adds at most
    one to the two tallies together. *)
Theorem X4_simple_tallies_bounded_by_votes :
  forall (env0 : Env) (minDeposit : uint256) (tr : list (Env * Simple.Call))
         (i : uint256) (p : Simple.Proposal),
    let s0 := Simple.constructor env0 minDeposit in
    Simple.proposals (Simple.run tr s0) !! N.to_nat i = Some p ->
    Simple.encryptedYesVotes p + Simple.encryptedNoVotes p
    <= N.of_nat (simple_votes_on i tr s0).
Proof.
  intros env0 minDeposit tr i p s0 Hp.
  pose proof (simple_run_tally i tr s0) as H.
  unfold simple_tally in H. rewrite Hp in H.
  change (Simple.proposals s0) with (@nil Simple.Proposal) in H.
  rewrite lookup_nil in H. lia.
Qed.

Lemma X4_simple_tallies_bounded_by_votes_witness :
  let tr :=
    [ (Scenario.paying Scenario.alice 110 100, Simple.CallDeposit);
      (Scenario.at_time Scenario.alice 120,
       Simple.CallCreateProposal "grant" "fund the grant" 1000 Scenario.payee 7);
      (Scenario.at_time Scenario.alice 130, Simple.CallVote 0 1 true);
      (Scenario.at_time Scenario.alice 140, Simple.CallVote 0 0 true) ] in
  1 + 0 <= N.of_nat (simple_votes_on 0 tr
                       (Simple.constructor (Scenario.at_time Scenario.deployer 100) 10)).
Proof.
  intros tr.
  apply (X4_simple_tallies_bounded_by_votes
           (Scenario.at_time Scenario.deployer 100) 10 tr 0
           {| Simple.id := 0;
              Simple.title := "grant";
              Simple.description := "fund the grant";
              Simple.proposer := Scenario.alice;
              Simple.amount := 1000;
              Simple.recipient := Scenario.payee;
              Simple.deadline := 604920;
              Simple.encryptedYesVotes := 1;
              Simple.encryptedNoVotes := 0;
              Simple.finalized := false |}).
  reflexivity.
Defined.

(** ** Simple variant: the result is final once published *)

(** A proposal finalized after its deadline [< t0] is not written by any
    call made at time [t0] or later. *)
Lemma simple_call_frozen (env : Env) (c : Simple.Call) (s s' : Simple.State)
    (n : nat) (t0 : uint256) (p : Simple.Proposal) :
  Simple.proposals s !! n = Some p ->
  Simple.finalized p = true ->
  Simple.deadline p < t0 ->
  t0 <= block_timestamp env ->
  Simple.call env c s = Ok s' ->
  Simple.proposals s' !! n = Some p.
Proof.
  intros Hp Hfin Hdl Ht H. apply simple_call_Ok in H. destruct c; cbn [Simple.dispatch] in H;
    unfold Simple.deposit, Simple.withdraw, Simple.createProposal, Simple.vote,
      Simple.finalizeProposal, Simple.keep, Simple.updateMinDeposit in H;
    break_ok; subst;
    cbn [fst Simple.proposals Simple.set_proposals Simple.set_deposits
         Simple.set_hasVoted Simple.set_minDepositToVote];
    try exact Hp.
  - (* createProposal *)
    rewrite lookup_app_l by (now apply lookup_lt_Some in Hp). exact Hp.
  - (* vote *)
    apply array_get_Ok in Hbind.
    destruct (decide (N.to_nat proposalId = n)) as [<- | Hne].
    + assert (val = p) by congruence. subst val.
      match goal with
      | Hx : (Simple.deadline p <? block_timestamp env) = false |- _ =>
          apply N.ltb_ge in Hx; lia
      end.
    + now rewrite list_lookup_insert_ne.
  - (* finalizeProposal *)
    apply array_get_Ok in Hbind.
    destruct (decide (N.to_nat proposalId = n)) as [<- | Hne].
    + assert (val = p) by congruence. subst val. congruence.
    + now rewrite list_lookup_insert_ne.
Qed.

Lemma simple_run_frozen (n : nat) (t0 : uint256) (p : Simple.Proposal)
    (tr : list (Env * Simple.Call)) :
  forall s : Simple.State,
    Simple.proposals s !! n = Some p ->
    Simple.finalized p = true ->
    Simple.deadline p < t0 ->
    not_before t0 tr ->
    Simple.proposals (Simple.run tr s) !! n = Some p.
Proof.
  induction tr as [| [env c] tr IH]; intros s Hp Hfin Hdl Htr.
  - exact Hp.
  - rewrite simple_run_cons. apply Forall_cons in Htr as [Ht Htr].
    apply IH; try assumption.
    unfold Simple.step. cbn [fst snd] in *.
    destruct (Simple.call env c s) as [s1 | r] eqn:Hc; [| exact Hp].
    eapply simple_call_frozen; eassumption.
Qed.

(** X5. Once [finalizeProposal] has succeeded on a proposal of the Simple
    variant, no call made at that time or later changes the proposal:
    [getYesVotes] and [getNoVotes] succeed and keep returning the two
    tallies as they stood when the proposal was finalized. *)
Theorem X5_simple_result_final :
  forall (env0 : Env) (s s1 : Simple.State) (i : uint256)
         (tr : list (Env * Simple.Call)),
    Simple.finalizeProposal env0 i s = Ok s1 ->
    not_before (block_timestamp env0) tr ->
    exists p : Simple.Proposal,
      Simple.proposals s !! N.to_nat i = Some p /\
      Simple.proposals (Simple.run tr s1) !! N.to_nat i
      = Some (Simple.set_finalized p true) /\
      Simple.getYesVotes i (Simple.run tr s1) = Ok (Simple.encryptedYesVotes p) /\
      Simple.getNoVotes i (Simple.run tr s1) = Ok (Simple.encryptedNoVotes p).
Proof.
  intros env0 s s1 i tr Hfin Htr.
  apply finalizeProposal_Ok in Hfin as (p & Hp & Hdl & Hp1).
  exists p. split; [exact Hp |].
  assert (Hp2 : Simple.proposals (Simple.run tr s1) !! N.to_nat i
                = Some (Simple.set_finalized p true)).
  { eapply simple_run_frozen; [exact Hp1 | reflexivity | exact Hdl | exact Htr]. }
  split; [exact Hp2 |].
  unfold Simple.getYesVotes, Simple.getNoVotes, Simple.proposals_length.
  rewrite (lookup_in_range _ _ _ Hp2), (array_get_Some _ _ _ Hp2).
  split; reflexivity.
Qed.

Lemma X5_simple_result_final_witness :
  let env0 := Scenario.at_time Scenario.alice 700000 in
  let s := Simple.run [ (Scenario.at_time Scenario.bob 200, Simple.CallVote 0 1 true) ]
             Scenario.simple_created in
  let s1 := Simple.step s (env0, Simple.CallFinalizeProposal 0) in
  let tr := [ (Scenario.at_time Scenario.alice 700010, Simple.CallVote 0 0 true);
              (Scenario.at_time Scenario.deployer 700020, Simple.CallFinalizeProposal 0) ] in
  exists p : Simple.Proposal,
    Simple.proposals s !! N.to_nat 0 = Some p /\
    Simple.proposals (Simple.run tr s1) !! N.to_nat 0 = Some (Simple.set_finalized p true) /\
    Simple.getYesVotes 0 (Simple.run tr s1) = Ok (Simple.encryptedYesVotes p) /\
    Simple.getNoVotes 0 (Simple.run tr s1) = Ok (Simple.encryptedNoVotes p).
Proof.
  intros env0 s s1 tr.
  apply (X5_simple_result_final env0 s s1 0 tr).
  - reflexivity.
  - repeat constructor; vm_compute; discriminate.
Defined.

(** ** Simple variant: the voting window and the finalization window *)

(** X6. For an existing, not yet finalized proposal of the Simple variant
    and a caller who is entitled to both actions (owner or proposer, deposit
    at least the minimum, no vote cast yet, valid input proof), the deadline
    splits time in two: up to and including the deadline [vote] succeeds
    and [finalizeProposal] fails, after it [finalizeProposal] succeeds and
    [vote] fails.  At no time are both possible, or neither. *)
Theorem X6_simple_windows_partition :
  forall (env : Env) (s : Simple.State) (i : uint256) (ev : FHE.externalEuint64)
         (p : Simple.Proposal),
    Simple.proposals s !! N.to_nat i = Some p ->
    Simple.finalized p = false ->
    may_finalize env s p = true ->
    Simple.minDepositToVote s <= Simple.deposits_of s (msg_sender env) ->
    Simple.hasVoted_of s i (msg_sender env) = false ->
    is_ok (Simple.vote env i ev true s) = (block_timestamp env <=? Simple.deadline p) /\
    is_ok (Simple.finalizeProposal env i s)
    = negb (block_timestamp env <=? Simple.deadline p).
Proof.
  intros env s i ev p Hp Hfin Hmay Hdep Hnv.
  rewrite (vote_existing env s i ev true p Hp).
  rewrite (finalizeProposal_existing env s i p Hp).
  apply N.ltb_ge in Hdep. rewrite Hdep, Hnv, Hfin, Hmay. cbn [negb].
  destruct (N.leb_spec (block_timestamp env) (Simple.deadline p)) as [Hle | Hgt].
  - apply N.ltb_ge in Hle. rewrite Hle. split; reflexivity.
  - apply N.ltb_lt in Hgt. rewrite Hgt. split; reflexivity.
Qed.

Lemma X6_simple_windows_partition_witness :
  let env := Scenario.at_time Scenario.alice 604920 in
  is_ok (Simple.vote env 0 1 true Scenario.simple_created)
  = (block_timestamp env <=? 604920) /\
  is_ok (Simple.finalizeProposal env 0 Scenario.simple_created)
  = negb (block_timestamp env <=? 604920).
Proof.
  intros env.
  apply (X6_simple_windows_partition env Scenario.simple_created 0 1
           {| Simple.id := 0;
              Simple.title := "grant";
              Simple.description := "fund the grant";
              Simple.proposer := Scenario.alice;
              Simple.amount := 1000;
              Simple.recipient := Scenario.payee;
              Simple.deadline := 604920;
              Simple.encryptedYesVotes := 0;
              Simple.encryptedNoVotes := 0;
              Simple.finalized := false |}).
  - reflexivity.
  - reflexivity.
  - reflexivity.
  - vm_compute. discriminate.
  - reflexivity.
Defined.

(** ** Simple variant: ballots and tallies do not show *)

Lemma array_get_fmap {E A B : Type} (f : A -> B) (l : list A) (i : uint256) :
  @array_get E B (f <$> l) i =
    match @array_get E A l i with
    | Ok x => Ok (f x)
    | Err r => Err r
    end.
Proof.
  unfold array_get. rewrite list_lookup_fmap. now destruct (l !! N.to_nat i).
Qed.

Lemma simple_public_fmap_idem (l : list Simple.Proposal) :
  simple_public_proposal <$> (simple_public_proposal <$> l) = simple_public_proposal <$> l.
Proof.
  rewrite <- list_fmap_compose. apply list_fmap_ext. intros i x _. reflexivity.
Qed.

Lemma simple_public_payable (c : Simple.Call) :
  Simple.payable (simple_public_call c) = Simple.payable c.
Proof. now destruct c. Qed.

Lemma simple_call_public (env : Env) (c : Simple.Call) (s : Simple.State) :
  project_result simple_public (Simple.call env c s)
  = project_result simple_public
      (Simple.call env (simple_public_call c) (simple_public s)).
Proof.
  unfold Simple.call. rewrite simple_public_payable.
  destruct (negb (Simple.payable c) && negb (msg_value env =? 0)); [reflexivity |].
  destruct c; cbn [simple_public_call Simple.dispatch];
    unfold Simple.deposit, Simple.withdraw, Simple.createProposal, Simple.vote,
      Simple.finalizeProposal, Simple.keep, Simple.getYesVotes, Simple.getNoVotes,
      Simple.getProposalCount, Simple.getProposal, Simple.updateMinDeposit,
      Simple.proposals_length, Simple.deposits_of, Simple.hasVoted_of,
      checked_add, checked_sub, checked_mul, FHE.fromExternal;
    cbn [Simple.owner Simple.minDepositToVote Simple.proposals Simple.deposits
         Simple.hasVoted simple_public];
    rewrite ?length_fmap, ?array_get_fmap;
    repeat (cbn [bind project_result fst Simple.id Simple.title Simple.description
                 Simple.proposer Simple.amount Simple.recipient Simple.deadline
                 Simple.finalized simple_public_proposal Simple.set_tallies];
            match goal with
            | |- context [if ?b then _ else _] => destruct b eqn:?
            | |- context [array_get ?l ?i] => destruct (array_get l i) eqn:?
            end);
    cbn [bind project_result fst];
    try reflexivity;
    f_equal; unfold simple_public, Simple.set_deposits, Simple.set_proposals,
      Simple.set_hasVoted, Simple.set_minDepositToVote;
    cbn [Simple.owner Simple.minDepositToVote Simple.proposals Simple.deposits
         Simple.hasVoted Simple.events];
    f_equal;
    rewrite ?fmap_app, ?list_fmap_insert, ?simple_public_fmap_idem;
    reflexivity.
Qed.

(** X7. In the Simple variant, whether a call succeeds, the reason it
    reverts with, and everything it leaves in the state apart from the
    plaintexts of the two tallies, do not depend on the ballot of a [vote]
    call nor on the tallies: two states with the same public view, given
    the same call up to the ballot, give the same public outcome. *)
Theorem X7_simple_ballots_do_not_show :
  forall (env : Env) (c1 c2 : Simple.Call) (s1 s2 : Simple.State),
    simple_public s1 = simple_public s2 ->
    simple_public_call c1 = simple_public_call c2 ->
    project_result simple_public (Simple.call env c1 s1)
    = project_result simple_public (Simple.call env c2 s2).
Proof.
  intros env c1 c2 s1 s2 Hs Hc.
  rewrite (simple_call_public env c1 s1), (simple_call_public env c2 s2).
  now rewrite Hs, Hc.
Qed.

Lemma X7_simple_ballots_do_not_show_witness :
  let s1 := Simple.step Scenario.simple_created
              (Scenario.at_time Scenario.alice 200, Simple.CallVote 0 1 true) in
  let s2 := Simple.step Scenario.simple_created
              (Scenario.at_time Scenario.alice 200, Simple.CallVote 0 0 true) in
  let env := Scenario.at_time Scenario.bob 300 in
  project_result simple_public (Simple.call env (Simple.CallVote 0 1 true) s1)
  = project_result simple_public (Simple.call env (Simple.CallVote 0 7 true) s2).
Proof.
  intros s1 s2 env.
  apply (X7_simple_ballots_do_not_show env
           (Simple.CallVote 0 1 true) (Simple.CallVote 0 7 true) s1 s2).
  - reflexivity.
  - reflexivity.
Defined.

(** ** Simple variant: who can change what *)

Lemma simple_call_owner_min (env : Env) (c : Simple.Call) (s s' : Simple.State) :
  Simple.call env c s = Ok s' ->
  Simple.owner s' = Simple.owner s /\
  (msg_sender env <> Simple.owner s ->
   Simple.minDepositToVote s' = Simple.minDepositToVote s).
Proof.
  intros H. apply simple_call_Ok in H. destruct c; cbn [Simple.dispatch] in H;
    unfold Simple.deposit, Simple.withdraw, Simple.createProposal, Simple.vote,
      Simple.finalizeProposal, Simple.keep, Simple.updateMinDeposit in H;
    break_ok; subst; split; try reflexivity; intros Hne; try reflexivity.
  exfalso. apply Hne. apply N.eqb_eq.
  now destruct (msg_sender env =? Simple.owner s).
Qed.

(** X8. In the Simple variant the owner is fixed at deployment, and the
    minimum deposit is written by the owner alone: a sequence of calls none
    of which is sent by the owner leaves both as they were, and
    [updateMinDeposit] sent by anyone else reverts with the reason
    "Not owner". *)
Theorem X8_simple_only_owner_sets_minimum :
  forall (tr : list (Env * Simple.Call)) (s : Simple.State) (env : Env) (m : uint256),
    sent_by_others (Simple.owner s) tr ->
    msg_sender env <> Simple.owner s ->
    Simple.owner (Simple.run tr s) = Simple.owner s /\
    Simple.minDepositToVote (Simple.run tr s) = Simple.minDepositToVote s /\
    Simple.updateMinDeposit env m (Simple.run tr s) = Err (RequireFailed "Not owner").
Proof.
  induction tr as [| [env1 c] tr IH]; intros s env m Htr Hne.
  - cbn [Simple.run fold_left]. repeat split.
    unfold Simple.updateMinDeposit. apply N.eqb_neq in Hne. now rewrite Hne.
  - rewrite simple_run_cons. apply Forall_cons in Htr as [Hne1 Htr]. cbn [fst] in Hne1.
    unfold Simple.step. cbn [fst snd].
    destruct (Simple.call env1 c s) as [s1 | r] eqn:Hc.
    + destruct (simple_call_owner_min env1 c s s1 Hc) as [Ho Hm].
      specialize (Hm Hne1). rewrite <- Ho, <- Hm. apply IH.
      * now rewrite Ho.
      * now rewrite Ho.
    + now apply IH.
Qed.

Lemma X8_simple_only_owner_sets_minimum_witness :
  let tr := [ (Scenario.at_time Scenario.alice 200, Simple.CallUpdateMinDeposit 0);
              (Scenario.paying Scenario.bob 210 5, Simple.CallDeposit) ] in
  Simple.owner (Simple.run tr Scenario.simple_created) = Simple.owner Scenario.simple_created /\
  Simple.minDepositToVote (Simple.run tr Scenario.simple_created)
  = Simple.minDepositToVote Scenario.simple_created /\
  Simple.updateMinDeposit (Scenario.at_time Scenario.bob 220) 1
    (Simple.run tr Scenario.simple_created) = Err (RequireFailed "Not owner").
Proof.
  intros tr.
  apply (X8_simple_only_owner_sets_minimum tr Scenario.simple_created
           (Scenario.at_time Scenario.bob 220) 1).
  - repeat constructor; vm_compute; discriminate.
  - vm_compute. discriminate.
Defined.

Lemma simple_call_deposits_of_other (env : Env) (c : Simple.Call) (s s' : Simple.State)
    (a : address) :
  Simple.call env c s = Ok s' ->
  msg_sender env <> a ->
  Simple.deposits_of s' a = Simple.deposits_of s a.
Proof.
  intros H Hne. destruct c;
    try (unfold Simple.deposits_of;
         rewrite (call_other_deposits env _ s s' H ltac:(discriminate) ltac:(discriminate));
         reflexivity).
  - apply simple_call_Ok, deposit_Ok in H as [_ Hd]. rewrite (Hd a).
    now destruct (decide (msg_sender env = a)).
  - apply simple_call_Ok, withdraw_Ok in H as [_ Hd]. rewrite (Hd a).
    now destruct (decide (msg_sender env = a)).
Qed.

(** X9. In the Simple variant the recorded deposit of an identity is moved
    by that identity's own calls only: a sequence of calls none of which is
    sent by [a] leaves the balance of [a] as it was. *)
Theorem X9_simple_deposit_isolation :
  forall (tr : list (Env * Simple.Call)) (s : Simple.State) (a : address),
    sent_by_others a tr ->
    Simple.deposits_of (Simple.run tr s) a = Simple.deposits_of s a.
Proof.
  induction tr as [| [env c] tr IH]; intros s a Htr.
  - reflexivity.
  - rewrite simple_run_cons. apply Forall_cons in Htr as [Hne Htr]. cbn [fst] in Hne.
    rewrite (IH _ a Htr). unfold Simple.step. cbn [fst snd].
    destruct (Simple.call env c s) as [s1 | r] eqn:Hc; [| reflexivity].
    eapply simple_call_deposits_of_other; eassumption.
Qed.

Lemma X9_simple_deposit_isolation_witness :
  let tr := [ (Scenario.paying Scenario.bob 210 5, Simple.CallDeposit);
              (Scenario.at_time Scenario.bob 220, Simple.CallWithdraw 100);
              (Scenario.at_time Scenario.deployer 230, Simple.CallUpdateMinDeposit 1000) ] in
  Simple.deposits_of (Simple.run tr Scenario.simple_created) Scenario.alice
  = Simple.deposits_of Scenario.simple_created Scenario.alice.
Proof.
  intros tr. apply (X9_simple_deposit_isolation tr Scenario.simple_created Scenario.alice).
  repeat constructor; vm_compute; discriminate.
Defined.

(** X10. A deposit can be taken back: after a successful [deposit] of value
    [v], [withdraw(v)] by the same identity succeeds (when the transfer to
    the caller goes through) and leaves every recorded balance as it was
    before the deposit. *)
Theorem X10_simple_deposit_then_withdraw :
  forall (env env' : Env) (s s1 : Simple.State),
    Simple.deposit env s = Ok s1 ->
    msg_sender env' = msg_sender env ->
    transfer_succeeds env' = true ->
    exists s2 : Simple.State,
      Simple.withdraw env' (msg_value env) s1 = Ok s2 /\
      forall a : address, Simple.deposits_of s2 a = Simple.deposits_of s a.
Proof.
  intros env env' s s1 Hdep Hs Htr.
  apply deposit_Ok in Hdep as [_ Hd1].
  assert (Hbal : Simple.deposits_of s1 (msg_sender env')
                 = Simple.deposits_of s (msg_sender env) + msg_value env).
  { rewrite (Hd1 (msg_sender env')), Hs. now destruct (decide _). }
  unfold Simple.withdraw, checked_sub. rewrite Hbal, Htr.
  assert (Hlt : (Simple.deposits_of s (msg_sender env) + msg_value env <? msg_value env)
                = false) by (apply N.ltb_ge; lia).
  assert (Hle : (msg_value env <=? Simple.deposits_of s (msg_sender env) + msg_value env)
                = true) by (apply N.leb_le; lia).
  rewrite Hlt, Hle. cbn [bind]. eexists. split; [reflexivity |].
  intros a. unfold Simple.deposits_of at 1. cbn [Simple.deposits Simple.set_deposits].
  rewrite mapping_get_insert, Hs.
  fold (Simple.deposits_of s1 a). rewrite (Hd1 a).
  destruct (decide (msg_sender env = a)) as [<- |]; [lia | reflexivity].
Qed.

Lemma X10_simple_deposit_then_withdraw_witness :
  let env := Scenario.paying Scenario.bob 300 25 in
  let s1 := Simple.step Scenario.simple_created (env, Simple.CallDeposit) in
  exists s2 : Simple.State,
    Simple.withdraw (Scenario.at_time Scenario.bob 400) (msg_value env) s1 = Ok s2 /\
    forall a : address,
      Simple.deposits_of s2 a = Simple.deposits_of Scenario.simple_created a.
Proof.
  intros env s1.
  apply (X10_simple_deposit_then_withdraw env (Scenario.at_time Scenario.bob 400)
           Scenario.simple_created s1).
  - reflexivity.
  - reflexivity.
  - reflexivity.
Defined.

(** ** Confidential variant: the constructor *)

Lemma conf_constructor_fold (l : list address) :
  forall s : Confidential.State,
    let s' := fold_left
                (fun s m =>
                   Confidential.set_isMember s (<[m := true]> (Confidential.isMember s))
                     (Confidential.MemberAdded m)) l s in
    Confidential.owner s' = Confidential.owner s /\
    Confidential.quorum s' = Confidential.quorum s /\
    Confidential._treasury s' = Confidential._treasury s /\
    Confidential.proposals s' = Confidential.proposals s /\
    Confidential.voted s' = Confidential.voted s /\
    Confidential.events s' = Confidential.events s ++ (Confidential.MemberAdded <$> l) /\
    forall a : address,
      Confidential.isMember_of s' a = true <->
      a ∈ l \/ Confidential.isMember_of s a = true.
Proof.
  induction l as [| m l IH]; intros s; cbn [fold_left].
  - cbn. rewrite app_nil_r. repeat split; auto.
    intros [Hin | H]; [| exact H]. now apply elem_of_nil in Hin.
  - destruct (IH (Confidential.set_isMember s (<[m := true]> (Confidential.isMember s))
                    (Confidential.MemberAdded m)))
      as (Ho & Hq & Ht & Hp & Hv & He & Hm).
    cbn zeta. rewrite Ho, Hq, Ht, Hp, Hv, He.
    cbn [Confidential.owner Confidential.quorum Confidential._treasury
         Confidential.proposals Confidential.voted Confidential.events
         Confidential.set_isMember fmap list_fmap].
    rewrite <- app_assoc. repeat split; try reflexivity.
    + intros H. apply Hm in H as [Hin | H]; [left; now apply elem_of_cons; right |].
      unfold Confidential.isMember_of in H.
      cbn [Confidential.isMember Confidential.set_isMember] in H.
      rewrite mapping_get_insert in H.
      destruct (decide (m = a)) as [-> |]; [left; apply elem_of_cons; now left | now right].
    + intros H. apply Hm.
      unfold Confidential.isMember_of at 1.
      cbn [Confidential.isMember Confidential.set_isMember].
      rewrite mapping_get_insert.
      destruct (decide (m = a)) as [-> |]; [now right |].
      destruct H as [Hin | H]; [| now right].
      apply elem_of_cons in Hin as [-> | Hin]; [congruence | now left].
Qed.


(** ** Confidential variant: who can change what *)

Lemma FHE_sub_select_le (enc t : N) :
  t < FHE.two64 ->
  FHE.sub t (FHE.select (FHE.le enc t) enc (FHE.asEuint64 0))
  + FHE.select (FHE.le enc t) enc (FHE.asEuint64 0) = t.
Proof.
  intros Ht. unfold FHE.select, FHE.le. rewrite asEuint64_0.
  destruct (N.leb_spec enc t) as [Hle | Hgt].
  - rewrite FHE_sub_le by assumption. lia.
  - rewrite FHE_sub_0 by assumption. lia.
Qed.

Lemma conf_call_by_other (env : Env) (c : Confidential.Call) (s s' : Confidential.State) :
  Confidential.call env c s = Ok s' ->
  Confidential.owner s' = Confidential.owner s /\
  (msg_sender env <> Confidential.owner s ->
   Confidential.quorum s' = Confidential.quorum s /\
   Confidential.isMember s' = Confidential.isMember s /\
   (Confidential.wf s -> Confidential._treasury s' <= Confidential._treasury s)).
Proof.
  intros H. apply conf_call_Ok in H.
  destruct c; unfold_conf_call H; break_ok; subst;
    (split; [reflexivity |]); intros Hne;
    try (exfalso; apply Hne; apply N.eqb_eq;
         now destruct (msg_sender env =? Confidential.owner s));
    cbn [fst Confidential.quorum Confidential.isMember Confidential._treasury
         Confidential.emit Confidential.set_proposals Confidential.set_treasury
         Confidential.set_voted];
    (split; [reflexivity |]); (split; [reflexivity |]); intros Hwf; try lia.
  unfold Confidential.wf in Hwf.
  pose proof (FHE_sub_select_le (Confidential.encAmount val) _ Hwf). lia.
Qed.

(** X13. In the Confidential-spend variant the owner is fixed at
    deployment, and a sequence of calls none of which is sent by the owner
    changes neither the quorum nor the member set and never increases the
    treasury: [addMember], [removeMember], [updateQuorum], [depositEncrypted]
    and [cancelProposal] are the owner's alone. *)
Theorem X13_conf_only_owner_administers :
  forall (tr : list (Env * Confidential.Call)) (s : Confidential.State),
    Confidential.wf s ->
    sent_by_others (Confidential.owner s) tr ->
    Confidential.owner (Confidential.run tr s) = Confidential.owner s /\
    Confidential.quorum (Confidential.run tr s) = Confidential.quorum s /\
    Confidential.isMember (Confidential.run tr s) = Confidential.isMember s /\
    Confidential._treasury (Confidential.run tr s) <= Confidential._treasury s.
Proof.
  induction tr as [| [env c] tr IH]; intros s Hwf Htr.
  - cbn [Confidential.run fold_left]. repeat split. lia.
  - rewrite conf_run_cons. apply Forall_cons in Htr as [Hne Htr]. cbn [fst] in Hne.
    unfold Confidential.step. cbn [fst snd].
    destruct (Confidential.call env c s) as [s1 | r] eqn:Hc; [| now apply IH].
    destruct (conf_call_by_other env c s s1 Hc) as [Ho Hrest].
    destruct (Hrest Hne) as (Hq & Hm & Ht). specialize (Ht Hwf).
    assert (Hwf1 : Confidential.wf s1) by (eapply conf_call_wf; eassumption).
    rewrite <- Ho in Htr.
    destruct (IH s1 Hwf1 Htr) as (Ho' & Hq' & Hm' & Ht').
    repeat split; try congruence. lia.
Qed.

Lemma X13_conf_only_owner_administers_witness :
  let tr := [ (Scenario.at_time Scenario.alice 150, Confidential.CallExecute 0);
              (Scenario.at_time Scenario.bob 160, Confidential.CallUpdateQuorum 0);
              (Scenario.at_time Scenario.bob 170, Confidential.CallAddMember Scenario.carol);
              (Scenario.at_time Scenario.bob 180, Confidential.CallDepositEncrypted 9 true) ] in
  let s := Scenario.conf_voted 20 in
  Confidential.owner (Confidential.run tr s) = Confidential.owner s /\
  Confidential.quorum (Confidential.run tr s) = Confidential.quorum s /\
  Confidential.isMember (Confidential.run tr s) = Confidential.isMember s /\
  Confidential._treasury (Confidential.run tr s) <= Confidential._treasury s.
Proof.
  intros tr s. apply (X13_conf_only_owner_administers tr s).
  - reflexivity.
  - repeat constructor; vm_compute; discriminate.
Defined.

Lemma conf_run_by_others (tr : list (Env * Confidential.Call)) :
  forall s : Confidential.State,
    sent_by_others (Confidential.owner s) tr ->
    Confidential.isMember (Confidential.run tr s) = Confidential.isMember s.
Proof.
  induction tr as [| [env c] tr IH]; intros s Htr; [reflexivity |].
  rewrite conf_run_cons. apply Forall_cons in Htr as [Hne Htr]. cbn [fst] in Hne.
  unfold Confidential.step. cbn [fst snd].
  destruct (Confidential.call env c s) as [s1 | r] eqn:Hc; [| now apply IH].
  destruct (conf_call_by_other env c s s1 Hc) as [Ho Hrest].
  destruct (Hrest Hne) as (_ & Hm & _).
  rewrite <- Hm. apply IH. now rewrite Ho.
Qed.

(** X12. Membership is read when a call is made.  When the owner removes
    [m], the proposals and the vote records stay as they are -- votes [m]
    has cast remain counted -- and from then on, until the owner acts again,
    every [createProposal], [voteYes] and [execute] sent by [m] reverts with
    [NotMember]. *)
Theorem X12_conf_removed_member :
  forall (envO : Env) (m : address) (s s1 : Confidential.State)
         (tr : list (Env * Confidential.Call)) (env : Env),
    Confidential.removeMember envO m s = Ok s1 ->
    sent_by_others (Confidential.owner s) tr ->
    msg_sender env = m ->
    Confidential.proposals s1 = Confidential.proposals s /\
    Confidential.voted s1 = Confidential.voted s /\
    (forall (r : address) (amt : FHE.externalEuint64) (pf : bool) (v : uint256),
       Confidential.createProposal env r amt pf v (Confidential.run tr s1)
       = Err (Custom Confidential.NotMember)) /\
    (forall i : uint256,
       Confidential.voteYes env i (Confidential.run tr s1)
       = Err (Custom Confidential.NotMember) /\
       Confidential.execute env i (Confidential.run tr s1)
       = Err (Custom Confidential.NotMember)).
Proof.
  intros envO m s s1 tr env Hrem Htr Hm.
  unfold Confidential.removeMember, Confidential.onlyOwner in Hrem. break_ok. subst s1.
  split; [reflexivity |]. split; [reflexivity |].
  assert (Hnot : Confidential.isMember_of
                   (Confidential.run tr
                      (Confidential.set_isMember s (<[m := false]> (Confidential.isMember s))
                         (Confidential.MemberRemoved m))) (msg_sender env) = false).
  { unfold Confidential.isMember_of.
    rewrite (conf_run_by_others tr
               (Confidential.set_isMember s (<[m := false]> (Confidential.isMember s))
                  (Confidential.MemberRemoved m)) Htr).
    cbn [Confidential.isMember Confidential.set_isMember].
    rewrite Hm. apply mapping_get_insert_eq. }
  unfold Confidential.createProposal, Confidential.voteYes, Confidential.execute,
    Confidential.onlyMember.
  rewrite Hnot. cbn [negb]. repeat split.
Qed.

Lemma X12_conf_removed_member_witness :
  let envO := Scenario.at_time Scenario.deployer 150 in
  let s := Scenario.conf_one_vote in
  let s1 := Confidential.step s (envO, Confidential.CallRemoveMember Scenario.alice) in
  let tr := [ (Scenario.at_time Scenario.bob 160, Confidential.CallVoteYes 0);
              (Scenario.at_time Scenario.alice 165, Confidential.CallAddMember Scenario.alice) ] in
  let env := Scenario.at_time Scenario.alice 170 in
  Confidential.proposals s1 = Confidential.proposals s /\
  Confidential.voted s1 = Confidential.voted s /\
  (forall (r : address) (amt : FHE.externalEuint64) (pf : bool) (v : uint256),
     Confidential.createProposal env r amt pf v (Confidential.run tr s1)
     = Err (Custom Confidential.NotMember)) /\
  (forall i : uint256,
     Confidential.voteYes env i (Confidential.run tr s1)
     = Err (Custom Confidential.NotMember) /\
     Confidential.execute env i (Confidential.run tr s1)
     = Err (Custom Confidential.NotMember)).
Proof.
  intros envO s s1 tr env.
  apply (X12_conf_removed_member envO Scenario.alice s s1 tr env).
  - reflexivity.
  - repeat constructor; vm_compute; discriminate.
  - reflexivity.
Defined.

(** ** Confidential variant: the treasury never pays out more than it took in *)

Lemma spent_of_app (l l' : list Confidential.Proposal) :
  spent_of (l ++ l') = spent_of l + spent_of l'.
Proof.
  induction l as [| p l IH]; [reflexivity |].
  change (spent_of ((p :: l) ++ l')) with (Confidential.executedEnc p + spent_of (l ++ l')).
  change (spent_of (p :: l)) with (Confidential.executedEnc p + spent_of l).
  rewrite IH. lia.
Qed.

Lemma spent_of_insert (l : list Confidential.Proposal) :
  forall (n : nat) (p q : Confidential.Proposal),
    l !! n = Some p ->
    spent_of (<[n := q]> l) + Confidential.executedEnc p
    = spent_of l + Confidential.executedEnc q.
Proof.
  induction l as [| x l IH]; intros n p q Hn; [discriminate |].
  destruct n as [| n].
  - injection Hn as ->.
    change (<[0%nat := q]> (p :: l)) with (q :: l).
    change (spent_of (q :: l)) with (Confidential.executedEnc q + spent_of l).
    change (spent_of (p :: l)) with (Confidential.executedEnc p + spent_of l). lia.
  - change (<[S n := q]> (x :: l)) with (x :: <[n := q]> l).
    change (spent_of (x :: <[n := q]> l))
      with (Confidential.executedEnc x + spent_of (<[n := q]> l)).
    change (spent_of (x :: l)) with (Confidential.executedEnc x + spent_of l).
    specialize (IH n p q Hn). lia.
Qed.

Lemma conf_call_pending_zero (env : Env) (c : Confidential.Call)
    (s s' : Confidential.State) :
  conf_pending_zero s -> Confidential.call env c s = Ok s' -> conf_pending_zero s'.
Proof.
  intros Hpz H. apply conf_call_Ok in H.
  destruct c; unfold_conf_call H; break_ok; subst; unfold conf_pending_zero in *;
    cbn [fst Confidential.proposals Confidential.emit Confidential.set_proposals
         Confidential.set_treasury Confidential.set_voted Confidential.set_quorum
         Confidential.set_isMember];
    try exact Hpz.
  - apply Forall_app. split; [exact Hpz |]. constructor; [reflexivity | constructor].
  - apply array_get_Ok in Hbind. apply Forall_insert; [exact Hpz |].
    rewrite Forall_lookup in Hpz. exact (Hpz _ _ Hbind).
  - apply Forall_insert; [exact Hpz |]. discriminate.
  - apply Forall_insert; [exact Hpz |]. discriminate.
Qed.

Lemma conf_call_balance (env : Env) (c : Confidential.Call) (s s' : Confidential.State) :
  Confidential.wf s -> conf_pending_zero s ->
  Confidential.call env c s = Ok s' ->
  Confidential._treasury s' + conf_spent s' <=
    Confidential._treasury s + conf_spent s
    + match c with
      | Confidential.CallDepositEncrypted amt _ => amt mod FHE.two64
      | _ => 0
      end.
Proof.
  intros Hwf Hpz H. apply conf_call_Ok in H.
  destruct c; unfold_conf_call H; break_ok; subst; unfold conf_spent;
    cbn [fst Confidential.proposals Confidential._treasury Confidential.emit
         Confidential.set_proposals Confidential.set_treasury Confidential.set_voted
         Confidential.set_quorum Confidential.set_isMember];
    try lia.
  - (* depositEncrypted *)
    unfold FHE.fromExternal in Hbind. destruct inputProof; [| discriminate].
    injection Hbind as <-.
    pose proof (FHE_add_le (Confidential._treasury s) (encryptedAmt mod FHE.two64)). lia.
  - (* createProposal *)
    rewrite spent_of_app. cbn. lia.
  - (* voteYes *)
    apply array_get_Ok in Hbind.
    pose proof (spent_of_insert _ _ _ (Confidential.set_yesVotes val val0) Hbind) as Hs.
    cbn [Confidential.executedEnc Confidential.set_yesVotes] in Hs. lia.
  - (* execute *)
    apply array_get_Ok in Hbind.
    set (toSpend := FHE.select (FHE.le (Confidential.encAmount val) (Confidential._treasury s))
                      (Confidential.encAmount val) (FHE.asEuint64 0)).
    pose proof (spent_of_insert _ _ _ (Confidential.set_executed val toSpend) Hbind) as Hs.
    cbn [Confidential.executedEnc Confidential.set_executed] in Hs.
    pose proof (FHE_sub_select_le (Confidential.encAmount val) _ Hwf) as Ht.
    fold toSpend in Ht.
    unfold conf_pending_zero in Hpz. rewrite Forall_lookup in Hpz.
    assert (Hz : Confidential.executedEnc val = 0)
      by (apply (Hpz _ _ Hbind); now destruct (Confidential.executed val)).
    lia.
  - (* cancelProposal *)
    apply array_get_Ok in Hbind.
    pose proof (spent_of_insert _ _ _ (Confidential.set_executed val (FHE.asEuint64 0)) Hbind)
      as Hs.
    cbn [Confidential.executedEnc Confidential.set_executed] in Hs.
    rewrite asEuint64_0 in Hs |- *. lia.
Qed.

Lemma conf_run_balance (tr : list (Env * Confidential.Call)) :
  forall s : Confidential.State,
    Confidential.wf s -> conf_pending_zero s ->
    Confidential._treasury (Confidential.run tr s) + conf_spent (Confidential.run tr s)
    <= Confidential._treasury s + conf_spent s + conf_deposited tr s.
Proof.
  induction tr as [| [env c] tr IH]; intros s Hwf Hpz.
  - cbn. lia.
  - rewrite conf_run_cons. cbn [conf_deposited].
    unfold Confidential.step in *. cbn [fst snd] in *.
    destruct (Confidential.call env c s) as [s1 | r] eqn:Hc.
    + pose proof (conf_call_balance env c s s1 Hwf Hpz Hc) as Hstep.
      specialize (IH s1 (conf_call_wf env c s s1 Hwf Hc)
                    (conf_call_pending_zero env c s s1 Hpz Hc)).
      destruct c; cbn [is_ok] in *; lia.
    + specialize (IH s Hwf Hpz). destruct c; cbn [is_ok]; lia.
Qed.

(** X14. Along every sequence of calls of the Confidential-spend variant
    from deployment, read on plaintexts, the treasury balance plus the
    executed amounts of all proposals is at most the sum of the amounts
    imported by the successful [depositEncrypted] calls: the contract never
    pays out more than was deposited, whatever amounts the proposals ask
    for. *)
Theorem X14_conf_never_overspends :
  forall (env0 : Env) (members : list address) (minQuorum : uint256)
         (tr : list (Env * Confidential.Call)),
    let s0 := Confidential.constructor env0 members minQuorum in
    let s := Confidential.run tr s0 in
    Confidential._treasury s + conf_spent s <= conf_deposited tr s0.
Proof.
  intros env0 members minQuorum tr s0 s.
  pose proof (conf_run_balance tr s0 (conf_constructor_wf env0 members minQuorum)) as H.
  destruct (conf_constructor_fold members
              {| Confidential.owner := msg_sender env0;
                 Confidential.quorum := minQuorum;
                 Confidential._treasury := 0;
                 Confidential.proposals := [];
                 Confidential.voted := ∅;
                 Confidential.isMember := ∅;
                 Confidential.events := [] |})
    as (_ & _ & Ht & Hp & _).
  fold (Confidential.constructor env0 members minQuorum) in Ht, Hp. fold s0 in Ht, Hp.
  cbn [Confidential._treasury Confidential.proposals] in Ht, Hp.
  assert (Hpz : conf_pending_zero s0) by (unfold conf_pending_zero; rewrite Hp; constructor).
  specialize (H Hpz). fold s in H. unfold conf_spent in H at 2.
  rewrite Ht, Hp in H. cbn [spent_of foldr] in H. lia.
Qed.

(** ** Confidential variant: the yes counter *)

Lemma checked_add_Ok {E : Type} (a b n : uint256) :
  @checked_add E a b = Ok n -> n = a + b /\ a + b <= uint256_max.
Proof.
  unfold checked_add. destruct (N.leb_spec (a + b) uint256_max); [| discriminate].
  now intros [= <-].
Qed.

Lemma conf_call_yes (env : Env) (c : Confidential.Call) (s s' : Confidential.State)
    (i : uint256) :
  Confidential.call env c s = Ok s' ->
  conf_yes s' i =
    conf_yes s i
    + match c with
      | Confidential.CallVoteYes j => if N.eqb j i then 1 else 0
      | _ => 0
      end.
Proof.
  intros H. apply conf_call_Ok in H.
  destruct c; unfold_conf_call H; break_ok; subst; unfold conf_yes;
    cbn [fst Confidential.proposals Confidential.emit Confidential.set_proposals
         Confidential.set_treasury Confidential.set_voted Confidential.set_quorum
         Confidential.set_isMember];
    try lia.
  - (* createProposal *)
    destruct (Confidential.proposals s !! N.to_nat i) as [p |] eqn:Hp.
    + rewrite lookup_app_l by (now apply lookup_lt_Some in Hp). rewrite Hp. lia.
    + apply lookup_ge_None in Hp. rewrite lookup_app_r by exact Hp.
      destruct (N.to_nat i - length (Confidential.proposals s))%nat as [| [| k]]; cbn; lia.
  - (* voteYes *)
    apply array_get_Ok in Hbind.
    match goal with
    | Hx : checked_add _ _ = Ok _ |- _ => apply checked_add_Ok in Hx as [-> _]
    end.
    destruct (N.eqb_spec id i) as [-> | Hne].
    + rewrite list_lookup_insert_eq by (now apply lookup_lt_Some in Hbind).
      rewrite Hbind. reflexivity.
    + rewrite list_lookup_insert_ne by lia. lia.
  - (* execute *)
    apply array_get_Ok in Hbind.
    destruct (decide (N.to_nat id = N.to_nat i)) as [Heq | Hne].
    + rewrite <- Heq.
      rewrite list_lookup_insert_eq by (now apply lookup_lt_Some in Hbind).
      rewrite Hbind. cbn. lia.
    + rewrite list_lookup_insert_ne by exact Hne. lia.
  - (* cancelProposal *)
    apply array_get_Ok in Hbind.
    destruct (decide (N.to_nat id = N.to_nat i)) as [Heq | Hne].
    + rewrite <- Heq.
      rewrite list_lookup_insert_eq by (now apply lookup_lt_Some in Hbind).
      rewrite Hbind. cbn. lia.
    + rewrite list_lookup_insert_ne by exact Hne. lia.
Qed.

Lemma conf_run_yes (i : uint256) (tr : list (Env * Confidential.Call)) :
  forall s : Confidential.State,
    conf_yes (Confidential.run tr s) i = conf_yes s i + N.of_nat (conf_yes_calls i tr s).
Proof.
  induction tr as [| [env c] tr IH]; intros s.
  - cbn. lia.
  - rewrite conf_run_cons. cbn [conf_yes_calls].
    specialize (IH (Confidential.step s (env, c))).
    unfold Confidential.step in *. cbn [fst snd] in *.
    destruct (Confidential.call env c s) as [s1 | r] eqn:Hc.
    + pose proof (conf_call_yes env c s s1 i Hc) as Hstep.
      destruct c; cbn [is_ok andb] in *; try lia.
      destruct (id =? i); lia.
    + destruct c; cbn [is_ok andb]; lia.
Qed.

(** X15. Along every sequence of calls of the Confidential-spend variant
    from deployment, the [yesVotes] counter of a proposal is exactly the
    number of [voteYes] calls on it that succeeded: nothing else moves the
    counter, neither execution nor cancellation resets it, and it never
    wraps. *)
Theorem X15_conf_yesVotes_counts_votes :
  forall (env0 : Env) (members : list address) (minQuorum : uint256)
         (tr : list (Env * Confidential.Call)) (i : uint256) (p : Confidential.Proposal),
    let s0 := Confidential.constructor env0 members minQuorum in
    Confidential.proposals (Confidential.run tr s0) !! N.to_nat i = Some p ->
    Confidential.yesVotes p = N.of_nat (conf_yes_calls i tr s0).
Proof.
  intros env0 members minQuorum tr i p s0 Hp.
  pose proof (conf_run_yes i tr s0) as H. unfold conf_yes in H. rewrite Hp in H.
  destruct (conf_constructor_fold members
              {| Confidential.owner := msg_sender env0;
                 Confidential.quorum := minQuorum;
                 Confidential._treasury := 0;
                 Confidential.proposals := [];
                 Confidential.voted := ∅;
                 Confidential.isMember := ∅;
                 Confidential.events := [] |})
    as (_ & _ & _ & Hps & _).
  fold (Confidential.constructor env0 members minQuorum) in Hps. fold s0 in Hps.
  cbn [Confidential.proposals] in Hps. rewrite Hps, lookup_nil in H. lia.
Qed.

Lemma X15_conf_yesVotes_counts_votes_witness :
  let tr :=
    [ (Scenario.at_time Scenario.alice 120,
       Confidential.CallCreateProposal Scenario.payee 20 true one_day);
      (Scenario.at_time Scenario.alice 130, Confidential.CallVoteYes 0);
      (Scenario.at_time Scenario.alice 135, Confidential.CallVoteYes 0);
      (Scenario.at_time Scenario.carol 137, Confidential.CallVoteYes 0);
      (Scenario.at_time Scenario.bob 140, Confidential.CallVoteYes 0);
      (Scenario.at_time Scenario.bob 150, Confidential.CallExecute 0) ] in
  2 = N.of_nat (conf_yes_calls 0 tr
                  (Confidential.constructor (Scenario.at_time Scenario.deployer 100)
                     [Scenario.alice; Scenario.bob] 2)).
Proof.
  intros tr.
  apply (X15_conf_yesVotes_counts_votes (Scenario.at_time Scenario.deployer 100)
           [Scenario.alice; Scenario.bob] 2 tr 0
           {| Confidential.recipient := Scenario.payee;
              Confidential.encAmount := 20;
              Confidential.yesVotes := 2;
              Confidential.deadline := 86520;
              Confidential.executed := true;
              Confidential.executedEnc := 0 |}).
  reflexivity.
Defined.

(** ** Confidential variant: what a call keeps of the proposals *)

Section ConfKept.

Variable R : Confidential.Proposal -> Confidential.Proposal -> Prop.
Hypothesis R_refl : forall p, R p p.
Hypothesis R_trans : forall p q r, R p q -> R q r -> R p r.
Hypothesis R_vote :
  forall p, R p (Confidential.set_yesVotes p (Confidential.yesVotes p + 1)).
Hypothesis R_execute :
  forall p e, Confidential.executed p = false -> R p (Confidential.set_executed p e).

Lemma conf_call_kept_upto (env : Env) (c : Confidential.Call) (s s' : Confidential.State) :
  Confidential.call env c s = Ok s' ->
  kept_upto R (Confidential.proposals s) (Confidential.proposals s').
Proof using R_refl R_vote R_execute.
  intros H. apply conf_call_Ok in H.
  destruct c; unfold_conf_call H; break_ok; subst;
    cbn [fst Confidential.proposals Confidential.emit Confidential.set_proposals
         Confidential.set_treasury Confidential.set_voted Confidential.set_quorum
         Confidential.set_isMember];
    try (now apply kept_upto_refl).
  - intros n p Hn. now apply lookup_app_kept.
  - apply array_get_Ok in Hbind.
    match goal with
    | Hx : checked_add _ _ = Ok _ |- _ => apply checked_add_Ok in Hx as [-> _]
    end.
    intros n p Hn.
    eapply lookup_insert_kept; [exact R_refl | exact Hbind | apply R_vote | exact Hn].
  - apply array_get_Ok in Hbind. intros n p Hn.
    eapply lookup_insert_kept; [exact R_refl | exact Hbind | now apply R_execute | exact Hn].
  - apply array_get_Ok in Hbind. intros n p Hn.
    eapply lookup_insert_kept; [exact R_refl | exact Hbind | now apply R_execute | exact Hn].
Qed.

Lemma conf_run_kept_upto (tr : list (Env * Confidential.Call)) :
  forall s : Confidential.State,
    kept_upto R (Confidential.proposals s) (Confidential.proposals (Confidential.run tr s)).
Proof using R_refl R_trans R_vote R_execute.
  induction tr as [| ec tr IH]; intros s.
  - now apply kept_upto_refl.
  - rewrite conf_run_cons.
    eapply kept_upto_trans; [exact R_trans | | apply IH].
    unfold Confidential.step. destruct (Confidential.call ec.1 ec.2 s) eqn:Hc.
    + eapply conf_call_kept_upto; eassumption.
    + now apply kept_upto_refl.
Qed.

End ConfKept.

Lemma conf_final_refl (p : Confidential.Proposal) : conf_final p p.
Proof. unfold conf_final. auto. Qed.

Lemma conf_final_trans (p q r : Confidential.Proposal) :
  conf_final p q -> conf_final q r -> conf_final p r.
Proof.
  unfold conf_final. intros H1 H2 H. destruct (H1 H) as [Hq Hqe].
  destruct (H2 Hq) as [Hr Hre]. split; congruence.
Qed.

Lemma conf_final_vote (p : Confidential.Proposal) :
  conf_final p (Confidential.set_yesVotes p (Confidential.yesVotes p + 1)).
Proof. unfold conf_final. intros H. split; [exact H | reflexivity]. Qed.

Lemma conf_final_execute (p : Confidential.Proposal) (e : FHE.euint64) :
  Confidential.executed p = false -> conf_final p (Confidential.set_executed p e).
Proof. unfold conf_final. congruence. Qed.

Lemma conf_history_refl (p : Confidential.Proposal) : conf_history p p.
Proof. unfold conf_history. split; [reflexivity | lia]. Qed.

Lemma conf_history_trans (p q r : Confidential.Proposal) :
  conf_history p q -> conf_history q r -> conf_history p r.
Proof. unfold conf_history. intros [? ?] [? ?]. split; [congruence | lia]. Qed.

Lemma conf_history_vote (p : Confidential.Proposal) :
  conf_history p (Confidential.set_yesVotes p (Confidential.yesVotes p + 1)).
Proof. unfold conf_history. split; [reflexivity | cbn; lia]. Qed.

Lemma conf_history_execute (p : Confidential.Proposal) (e : FHE.euint64) :
  Confidential.executed p = false -> conf_history p (Confidential.set_executed p e).
Proof. unfold conf_history. intros _. split; [reflexivity | cbn; lia]. Qed.

(** The executed amount of an executed proposal stays. *)
Lemma conf_run_executed_final (tr : list (Env * Confidential.Call))
    (s : Confidential.State) (n : nat) (p : Confidential.Proposal) :
  Confidential.proposals s !! n = Some p ->
  Confidential.executed p = true ->
  exists p' : Confidential.Proposal,
    Confidential.proposals (Confidential.run tr s) !! n = Some p' /\
    Confidential.executed p' = true /\
    Confidential.executedEnc p' = Confidential.executedEnc p.
Proof.
  intros Hp Hex.
  destruct (conf_run_kept_upto conf_final conf_final_refl conf_final_trans
              conf_final_vote conf_final_execute tr s n p Hp) as (p' & Hp' & Hk).
  exists p'. destruct (Hk Hex). auto.
Qed.

(** X16. The terms of a proposal of the Confidential-spend variant are
    written once: whatever calls follow, a proposal keeps its recipient, its
    requested amount and its deadline -- [getRequestedAmount] keeps
    returning the same handle -- and its yes counter never goes down. *)
Theorem X16_conf_terms_are_permanent :
  forall (tr : list (Env * Confidential.Call)) (s : Confidential.State)
         (i : uint256) (p : Confidential.Proposal),
    Confidential.proposals s !! N.to_nat i = Some p ->
    exists p' : Confidential.Proposal,
      Confidential.proposals (Confidential.run tr s) !! N.to_nat i = Some p' /\
      conf_terms p' = conf_terms p /\
      Confidential.yesVotes p <= Confidential.yesVotes p' /\
      Confidential.getRequestedAmount i (Confidential.run tr s)
      = Ok (Confidential.encAmount p).
Proof.
  intros tr s i p Hp.
  destruct (conf_run_kept_upto conf_history conf_history_refl conf_history_trans
              conf_history_vote conf_history_execute tr s _ p Hp)
    as (p' & Hp' & Hterms & Hyes).
  exists p'. repeat split; try assumption.
  unfold Confidential.getRequestedAmount. rewrite (array_get_Some _ _ _ Hp'). cbn [bind].
  unfold conf_terms in Hterms. now injection Hterms as _ -> _.
Qed.

Lemma X16_conf_terms_are_permanent_witness :
  let tr := [ (Scenario.at_time Scenario.bob 140, Confidential.CallVoteYes 0);
              (Scenario.at_time Scenario.deployer 150, Confidential.CallCancelProposal 0) ] in
  let s := Scenario.conf_one_vote in
  let p := {| Confidential.recipient := Scenario.payee;
              Confidential.encAmount := 20;
              Confidential.yesVotes := 1;
              Confidential.deadline := 86520;
              Confidential.executed := false;
              Confidential.executedEnc := 0 |} in
  exists p' : Confidential.Proposal,
    Confidential.proposals (Confidential.run tr s) !! N.to_nat 0 = Some p' /\
    conf_terms p' = conf_terms p /\
    Confidential.yesVotes p <= Confidential.yesVotes p' /\
    Confidential.getRequestedAmount 0 (Confidential.run tr s)
    = Ok (Confidential.encAmount p).
Proof.
  intros tr s p. apply (X16_conf_terms_are_permanent tr s 0 p). reflexivity.
Defined.

(** X17. The executed amount of the Confidential-spend variant is written
    once: for a proposal whose [executed] flag is set, whatever calls
    follow, the flag stays set and [getExecutedAmount] keeps returning the
    same amount. *)
Theorem X17_conf_executed_amount_is_final :
  forall (tr : list (Env * Confidential.Call)) (s : Confidential.State)
         (i : uint256) (p : Confidential.Proposal),
    Confidential.proposals s !! N.to_nat i = Some p ->
    Confidential.executed p = true ->
    Confidential.getExecutedAmount i (Confidential.run tr s)
    = Ok (Confidential.executedEnc p).
Proof.
  intros tr s i p Hp Hex.
  destruct (conf_run_executed_final tr s _ p Hp Hex) as (p' & Hp' & _ & Henc).
  unfold Confidential.getExecutedAmount. rewrite (array_get_Some _ _ _ Hp'). cbn [bind].
  now rewrite Henc.
Qed.

Lemma X17_conf_executed_amount_is_final_witness :
  let tr := [ (Scenario.at_time Scenario.bob 160, Confidential.CallVoteYes 0);
              (Scenario.at_time Scenario.bob 170, Confidential.CallExecute 0);
              (Scenario.at_time Scenario.deployer 180, Confidential.CallCancelProposal 0) ] in
  Confidential.getExecutedAmount 0 (Confidential.run tr Scenario.conf_executed_early) = Ok 20.
Proof.
  intros tr.
  apply (X17_conf_executed_amount_is_final tr Scenario.conf_executed_early 0
           {| Confidential.recipient := Scenario.payee;
              Confidential.encAmount := 20;
              Confidential.yesVotes := 1;
              Confidential.deadline := 86520;
              Confidential.executed := true;
              Confidential.executedEnc := 20 |}).
  - reflexivity.
  - reflexivity.
Defined.

(** X18. The owner of the Confidential-spend variant can cancel any
    proposal that is not executed, whatever its votes and its deadline; the
    cancellation leaves the treasury as it is, and from then on, whatever
    calls follow, [getExecutedAmount] returns zero and [execute] on that
    proposal fails, also when the quorum is met. *)
Theorem X18_conf_cancel_forecloses :
  forall (env : Env) (s : Confidential.State) (i : uint256) (p : Confidential.Proposal)
         (tr : list (Env * Confidential.Call)) (env' : Env),
    msg_sender env = Confidential.owner s ->
    Confidential.proposals s !! N.to_nat i = Some p ->
    Confidential.executed p = false ->
    exists s1 : Confidential.State,
      Confidential.cancelProposal env i s = Ok s1 /\
      Confidential._treasury s1 = Confidential._treasury s /\
      Confidential.getExecutedAmount i (Confidential.run tr s1) = Ok 0 /\
      is_ok (Confidential.execute env' i (Confidential.run tr s1)) = false.
Proof.
  intros env s i p tr env' Ho Hp Hex.
  unfold Confidential.cancelProposal, Confidential.onlyOwner.
  rewrite Ho, N.eqb_refl. cbn [negb]. rewrite (array_get_Some _ _ _ Hp). cbn [bind].
  rewrite Hex. eexists. split; [reflexivity |]. split; [reflexivity |].
  match goal with
  | |- context [Confidential.run tr ?s1] =>
      destruct (conf_run_executed_final tr s1 (N.to_nat i)
                  (Confidential.set_executed p (FHE.asEuint64 0)))
        as (p' & Hp' & Hex' & Henc)
  end.
  { cbn [Confidential.proposals Confidential.emit Confidential.set_proposals].
    apply list_lookup_insert_eq. now apply lookup_lt_Some in Hp. }
  { reflexivity. }
  cbn [Confidential.executedEnc Confidential.set_executed] in Henc.
  rewrite asEuint64_0 in Henc.
  unfold Confidential.getExecutedAmount, Confidential.execute, Confidential.onlyMember.
  rewrite (array_get_Some _ _ _ Hp'). cbn [bind]. rewrite Henc, Hex'.
  split; [reflexivity |]. now destruct (negb _).
Qed.

Lemma X18_conf_cancel_forecloses_witness :
  let env := Scenario.at_time Scenario.deployer 150 in
  let s := Scenario.conf_voted 20 in
  let tr := [ (Scenario.at_time Scenario.bob 160, Confidential.CallExecute 0) ] in
  exists s1 : Confidential.State,
    Confidential.cancelProposal env 0 s = Ok s1 /\
    Confidential._treasury s1 = Confidential._treasury s /\
    Confidential.getExecutedAmount 0 (Confidential.run tr s1) = Ok 0 /\
    is_ok (Confidential.execute (Scenario.at_time Scenario.alice 170) 0
             (Confidential.run tr s1)) = false.
Proof.
  intros env s tr.
  apply (X18_conf_cancel_forecloses env s 0
           {| Confidential.recipient := Scenario.payee;
              Confidential.encAmount := 20;
              Confidential.yesVotes := 2;
              Confidential.deadline := 86520;
              Confidential.executed := false;
              Confidential.executedEnc := 0 |}).
  - reflexivity.
  - reflexivity.
  - reflexivity.
Defined.

(** ** Confidential variant: amounts do not show *)

Lemma conf_public_fmap_idem (l : list Confidential.Proposal) :
  conf_public_proposal <$> (conf_public_proposal <$> l) = conf_public_proposal <$> l.
Proof.
  rewrite <- list_fmap_compose. apply list_fmap_ext. intros i x _. reflexivity.
Qed.

Lemma conf_call_public (env : Env) (c : Confidential.Call) (s : Confidential.State) :
  project_result conf_public (Confidential.call env c s)
  = project_result conf_public
      (Confidential.call env (conf_public_call c) (conf_public s)).
Proof.
  unfold Confidential.call.
  destruct (negb (msg_value env =? 0)); [reflexivity |].
  destruct c; cbn [conf_public_call Confidential.dispatch];
    unfold Confidential.addMember, Confidential.removeMember, Confidential.depositEncrypted,
      Confidential.getTreasury, Confidential.createProposal, Confidential.updateQuorum,
      Confidential.voteYes, Confidential.execute, Confidential.getExecutedAmount,
      Confidential.getRequestedAmount, Confidential.cancelProposal, Confidential.keep,
      Confidential.onlyOwner, Confidential.onlyMember, Confidential.proposals_length,
      Confidential.isMember_of, Confidential.voted_of,
      checked_add, checked_sub, FHE.fromExternal;
    cbn [Confidential.owner Confidential.quorum Confidential.proposals Confidential.voted
         Confidential.isMember conf_public Confidential.set_proposals];
    rewrite ?length_fmap, ?array_get_fmap, ?length_app, ?length_fmap;
    repeat (cbn [bind project_result fst Confidential.recipient Confidential.yesVotes
                 Confidential.deadline Confidential.executed conf_public_proposal
                 Confidential.set_yesVotes];
            rewrite ?length_app, ?length_fmap; cbn [length];
            match goal with
            | |- context [if ?b then _ else _] => destruct b eqn:?
            | |- context [array_get ?l ?i] => destruct (array_get l i) eqn:?
            end);
    cbn [bind project_result fst];
    try reflexivity;
    f_equal; unfold conf_public, Confidential.emit, Confidential.set_proposals,
      Confidential.set_treasury, Confidential.set_voted, Confidential.set_quorum,
      Confidential.set_isMember;
    cbn [Confidential.owner Confidential.quorum Confidential._treasury
         Confidential.proposals Confidential.voted Confidential.isMember
         Confidential.events];
    f_equal;
    rewrite ?length_app, ?length_fmap,
      ?fmap_app, ?list_fmap_insert, ?conf_public_fmap_idem;
    reflexivity.
Qed.

(** X19. In the Confidential-spend variant, whether a call succeeds, the
    reason it reverts with, the events it logs and everything it leaves in
    the state apart from the plaintexts of the treasury and of the
    requested and executed amounts, do not depend on those plaintexts nor
    on the amount a deposit or a new proposal carries: two states with the
    same public view, given the same call up to its amount, give the same
    public outcome.  In particular [execute] never reverts because of the
    balance. *)
Theorem X19_conf_amounts_do_not_show :
  forall (env : Env) (c1 c2 : Confidential.Call) (s1 s2 : Confidential.State),
    conf_public s1 = conf_public s2 ->
    conf_public_call c1 = conf_public_call c2 ->
    project_result conf_public (Confidential.call env c1 s1)
    = project_result conf_public (Confidential.call env c2 s2).
Proof.
  intros env c1 c2 s1 s2 Hs Hc.
  rewrite (conf_call_public env c1 s1), (conf_call_public env c2 s2).
  now rewrite Hs, Hc.
Qed.

Lemma X19_conf_amounts_do_not_show_witness :
  let env := Scenario.at_time Scenario.alice 90000 in
  project_result conf_public
    (Confidential.call env (Confidential.CallExecute 0) (Scenario.conf_voted 20))
  = project_result conf_public
      (Confidential.call env (Confidential.CallExecute 0) (Scenario.conf_voted 70)).
Proof.
  intros env.
  apply (X19_conf_amounts_do_not_show env
           (Confidential.CallExecute 0) (Confidential.CallExecute 0)
           (Scenario.conf_voted 20) (Scenario.conf_voted 70)).
  - reflexivity.
  - reflexivity.
Defined.

(** ** Confidential variant: [createProposal] *)

Lemma conf_createProposal_Ok (env : Env) (r : address) (amt : FHE.externalEuint64)
    (pf : bool) (v : uint256) (s s1 : Confidential.State) (i : uint256) :
  Confidential.createProposal env r amt pf v s = Ok (s1, i) ->
  i = Confidential.proposals_length s /\
  Confidential.proposals s1 =
    Confidential.proposals s ++
      [ {| Confidential.recipient := r;
           Confidential.encAmount := amt mod FHE.two64;
           Confidential.yesVotes := 0;
           Confidential.deadline := block_timestamp env + v;
           Confidential.executed := false;
           Confidential.executedEnc := 0 |} ] /\
  Confidential._treasury s1 = Confidential._treasury s.
Proof.
  intros H. unfold Confidential.createProposal, Confidential.onlyMember,
              checked_add, checked_sub, FHE.fromExternal in H.
  break_ok. subst. split; [| split; reflexivity].
  unfold Confidential.proposals_length.
  cbn [Confidential.proposals Confidential.set_proposals].
  rewrite length_app. cbn [length]. lia.
Qed.

(** X20. [createProposal] of the Confidential-spend variant succeeds
    exactly when the caller is a member, the recipient is not zero, the
    voting period is between one hour and thirty days (3600 and 2592000
    seconds, bounds included), the input proof is accepted and the deadline
    [now + period] fits in a [uint256].  A successful call returns the
    number of proposals that existed before, and the proposal stored under
    that id starts with no vote, not executed, with that deadline. *)
Theorem X20_conf_createProposal_accepts :
  forall (env : Env) (r : address) (amt : FHE.externalEuint64) (pf : bool) (v : uint256)
         (s : Confidential.State),
    (is_ok (Confidential.createProposal env r amt pf v s) = true <->
     Confidential.isMember_of s (msg_sender env) = true /\
     r <> 0 /\ 3600 <= v <= 2592000 /\ pf = true /\
     block_timestamp env + v <= uint256_max) /\
    (forall (s1 : Confidential.State) (i : uint256),
       Confidential.createProposal env r amt pf v s = Ok (s1, i) ->
       i = Confidential.proposals_length s /\
       Confidential.proposals s1 !! N.to_nat i =
         Some {| Confidential.recipient := r;
                 Confidential.encAmount := amt mod FHE.two64;
                 Confidential.yesVotes := 0;
                 Confidential.deadline := block_timestamp env + v;
                 Confidential.executed := false;
                 Confidential.executedEnc := 0 |}).
Proof.
  intros env r amt pf v s. split.
  - unfold Confidential.createProposal, Confidential.onlyMember.
    destruct (Confidential.isMember_of s (msg_sender env));
      [cbn [negb] | cbn; split; [discriminate | intros [? _]; discriminate]].
    destruct (N.eqb_spec r 0); [cbn; split; [discriminate | tauto] |].
    change Confidential.MIN_VOTING_PERIOD with 3600.
    change Confidential.MAX_VOTING_PERIOD with 2592000.
    destruct (N.ltb_spec v 3600); [cbn; split; [discriminate | lia] |].
    destruct (N.ltb_spec 2592000 v); [cbn; split; [discriminate | lia] |].
    cbn [orb]. unfold FHE.fromExternal.
    destruct pf; [| cbn; split; [discriminate | intros (_ & _ & _ & ? & _); discriminate]].
    cbn [bind]. unfold checked_add.
    destruct (N.leb_spec (block_timestamp env + v) uint256_max);
      [| cbn; split; [discriminate | lia]].
    cbn [bind]. unfold checked_sub, Confidential.proposals_length.
    cbn [Confidential.proposals Confidential.set_proposals].
    rewrite length_app. cbn [length].
    assert (Hone : (1 <=? N.of_nat (length (Confidential.proposals s) + 1)) = true)
      by (apply N.leb_le; lia).
    rewrite Hone. cbn. split; [intros _ | reflexivity].
    repeat split; try assumption; lia.
  - intros s1 i H. apply conf_createProposal_Ok in H as (Hi & Hps & _).
    split; [exact Hi |]. rewrite Hps, lookup_app_r
      by (subst i; unfold Confidential.proposals_length; lia).
    replace (N.to_nat i - _)%nat with 0%nat
      by (subst i; unfold Confidential.proposals_length; lia).
    reflexivity.
Qed.

Lemma conf_call_length (env : Env) (c : Confidential.Call) (s s' : Confidential.State) :
  Confidential.call env c s = Ok s' ->
  length (Confidential.proposals s') =
    (length (Confidential.proposals s)
     + match c with Confidential.CallCreateProposal _ _ _ _ => 1 | _ => 0 end)%nat.
Proof.
  intros H. apply conf_call_Ok in H.
  destruct c; unfold_conf_call H; break_ok; subst;
    cbn [fst Confidential.proposals Confidential.emit Confidential.set_proposals
         Confidential.set_treasury Confidential.set_voted Confidential.set_quorum
         Confidential.set_isMember];
    rewrite ?length_app, ?length_insert; cbn [length]; lia.
Qed.

Lemma conf_run_length (tr : list (Env * Confidential.Call)) :
  forall s : Confidential.State,
    length (Confidential.proposals (Confidential.run tr s))
    = (length (Confidential.proposals s) + conf_created_count tr s)%nat.
Proof.
  induction tr as [| [env c] tr IH]; intros s.
  - cbn. lia.
  - rewrite conf_run_cons. cbn [conf_created_count].
    specialize (IH (Confidential.step s (env, c))).
    unfold Confidential.step in *. cbn [fst snd] in *.
    destruct (Confidential.call env c s) as [s1 | r] eqn:Hc.
    + rewrite IH, (conf_call_length env c s s1 Hc). destruct c; cbn [is_ok]; lia.
    + rewrite IH. destruct c; cbn [is_ok]; lia.
Qed.

(** X21. Along every sequence of calls of the Confidential-spend variant
    from deployment, the proposals are exactly those created by the
    [createProposal] calls that succeeded, under the ids 0, 1, 2, ...: the
    accessors [getRequestedAmount] and [getExecutedAmount] succeed on
    precisely the ids below that count, and no call removes a proposal. *)
Theorem X21_conf_proposals_numbered :
  forall (env0 : Env) (members : list address) (minQuorum : uint256)
         (tr : list (Env * Confidential.Call)) (i : uint256),
    let s0 := Confidential.constructor env0 members minQuorum in
    let s := Confidential.run tr s0 in
    Confidential.proposals_length s = N.of_nat (conf_created_count tr s0) /\
    is_ok (Confidential.getRequestedAmount i s) = (i <? N.of_nat (conf_created_count tr s0)) /\
    is_ok (Confidential.getExecutedAmount i s) = (i <? N.of_nat (conf_created_count tr s0)).
Proof.
  intros env0 members minQuorum tr i s0 s.
  pose proof (conf_run_length tr s0) as Hlen. fold s in Hlen.
  destruct (conf_constructor_fold members
              {| Confidential.owner := msg_sender env0;
                 Confidential.quorum := minQuorum;
                 Confidential._treasury := 0;
                 Confidential.proposals := [];
                 Confidential.voted := ∅;
                 Confidential.isMember := ∅;
                 Confidential.events := [] |})
    as (_ & _ & _ & Hps & _).
  fold (Confidential.constructor env0 members minQuorum) in Hps. fold s0 in Hps.
  cbn [Confidential.proposals] in Hps. rewrite Hps in Hlen. cbn [length Nat.add] in Hlen.
  split; [unfold Confidential.proposals_length; now rewrite Hlen |].
  unfold Confidential.getRequestedAmount, Confidential.getExecutedAmount.
  destruct (N.ltb_spec i (N.of_nat (conf_created_count tr s0))) as [Hlt | Hge].
  - assert (Hex : is_Some (Confidential.proposals s !! N.to_nat i))
      by (apply lookup_lt_is_Some; lia).
    destruct Hex as [p Hp]. rewrite (array_get_Some _ _ _ Hp). split; reflexivity.
  - rewrite array_get_out_of_range by lia. split; reflexivity.
Qed.
